(** * Lightning: post-processing of lightning sensor data

    A shallow embedding of [src/Lightning.cpp] (class [Lightning] and the
    non-volatile record [nvLightning]) together with the properties of the
    update engine and of the two query functions.

    Modelling conventions.
    - The global record [nvLightning] is threaded explicitly: every member
      function is a computation in the monad [M], which passes the record
      along and can stop with [OutOfBounds] (a subscript of [hist] outside
      the array, undefined in C++) or [OutOfFuel] (a loop that did not
      finish).
    - The build modelled is the one that keeps [nvLightning] in RTC RAM
      ([LIGHTNING_USE_PREFS] not defined), so no load or save surrounds
      [update].
    - [int] and [time_t] values are integers of [Z]; signed overflow, which
      C++ leaves undefined, is outside the model.  A theorem whose statement
      depends on the value of such an expression says so in a hypothesis that
      keeps the expression within its type ([sums_fit_int] for the sum of
      [pastHour], [plain_report] for the arguments of [update]).  The
      narrowing stores into the [int16_t] fields and the [uint16_t] parameter
      of [hist_init] wrap, and the wrap-around is written out ([to_int16],
      [to_uint16]).
    - [Lightning.h] and the C library are not part of the sources: the two
      constants, the default argument of [hist_init] and the minute of the
      hour that [localtime_r] computes are the fields of [Platform]. *)

From Stdlib Require Import ZArith Lia Bool List.
From stdpp Require Import base numbers list strings gmap.

Local Open Scope Z_scope.

(** ** Machine integers *)

(** Conversion of an [int] to [int16_t] (two's complement wrap-around). *)
Definition to_int16 (z : Z) : Z := (z + 32768) mod 65536 - 32768.

(** Conversion of an [int] to [uint16_t]. *)
Definition to_uint16 (z : Z) : Z := z mod 65536.

(** ** The non-volatile record *)

Record nvLightning_t : Type := mk_nvLightning {
  lastUpdate : Z;          (* time_t:  timestamp of last update *)
  prevCount  : Z;          (* int16_t *)
  events     : Z;          (* int16_t *)
  distance   : Z;          (* uint8_t *)
  timestamp  : Z;          (* time_t *)
  hist       : list Z      (* int hist[LIGHTNING_HIST_SIZE] *)
}.

Definition set_prevCount (v : Z) (s : nvLightning_t) : nvLightning_t :=
  mk_nvLightning (lastUpdate s) v (events s) (distance s) (timestamp s) (hist s).

Definition set_events (v : Z) (s : nvLightning_t) : nvLightning_t :=
  mk_nvLightning (lastUpdate s) (prevCount s) v (distance s) (timestamp s) (hist s).

Definition set_distance (v : Z) (s : nvLightning_t) : nvLightning_t :=
  mk_nvLightning (lastUpdate s) (prevCount s) (events s) v (timestamp s) (hist s).

Definition set_timestamp (v : Z) (s : nvLightning_t) : nvLightning_t :=
  mk_nvLightning (lastUpdate s) (prevCount s) (events s) (distance s) v (hist s).

Definition set_lastUpdate (v : Z) (s : nvLightning_t) : nvLightning_t :=
  mk_nvLightning v (prevCount s) (events s) (distance s) (timestamp s) (hist s).

Definition set_hist (h : list Z) (s : nvLightning_t) : nvLightning_t :=
  mk_nvLightning (lastUpdate s) (prevCount s) (events s) (distance s) (timestamp s) h.

(** ** Computations over the record *)

Inductive outcome (A : Type) : Type :=
  | Returns (a : A)
  | OutOfBounds
  | OutOfFuel.

Arguments Returns {A} a.
Arguments OutOfBounds {A}.
Arguments OutOfFuel {A}.

Definition M (A : Type) : Type := nvLightning_t -> outcome (A * nvLightning_t).

Definition ret {A : Type} (a : A) : M A := fun s => Returns (a, s).

Definition bind {A B : Type} (m : M A) (k : A -> M B) : M B :=
  fun s =>
    match m s with
    | Returns (a, s') => k a s'
    | OutOfBounds => OutOfBounds
    | OutOfFuel => OutOfFuel
    end.

Definition get : M nvLightning_t := fun s => Returns (s, s).

Definition modify (f : nvLightning_t -> nvLightning_t) : M unit :=
  fun s => Returns (tt, f s).

Definition when (b : bool) (m : M unit) : M unit := if b then m else ret tt.

Notation "'let*' x ':=' m 'in' k" := (bind m (fun x => k))
  (at level 10, x name, m at level 100, k at level 200).
Notation "m ';;;' k" := (bind m (fun _ => k))
  (at level 100, k at level 200, right associativity).

(** A counted [for] loop over the indices in [l], threading an accumulator. *)
Fixpoint for_each {A B : Type} (l : list A) (body : A -> B -> M B) (acc : B) : M B :=
  match l with
  | [] => ret acc
  | x :: l' => let* acc' := body x acc in for_each l' body acc'
  end.

(** ** What the header and the C library provide *)

Class Platform : Type := {
  (* #define LIGHTNING_HIST_SIZE *)
  LIGHTNING_HIST_SIZE : nat;
  (* #define LIGHTNING_UPD_RATE, in minutes *)
  LIGHTNING_UPD_RATE : Z;
  (* the default argument in the declaration of hist_init *)
  hist_init_default : Z;
  (* timeinfo.tm_min after localtime_r(&t, &timeinfo) *)
  tm_min : Z -> Z
}.

(** Out parameters of [lastEvent] ([time_t &], [int &], [uint8_t &]). *)
Record lastEvent_refs : Type := mk_refs {
  ref_timestamp : Z;
  ref_events : Z;
  ref_distance : Z
}.

Section Lightning.
Context {plat : Platform}.

(** [nvLightning.hist[idx] = v] *)
Definition hist_store (idx v : Z) : M unit :=
  fun s =>
    if (0 <=? idx) && (idx <? Z.of_nat LIGHTNING_HIST_SIZE)
    then Returns (tt, set_hist (<[Z.to_nat idx := v]> (hist s)) s)
    else OutOfBounds.

(** [nvLightning.hist[idx]] *)
Definition hist_load (idx : Z) : M Z :=
  fun s =>
    if (0 <=? idx) && (idx <? Z.of_nat LIGHTNING_HIST_SIZE)
    then match hist s !! Z.to_nat idx with
         | Some v => Returns (v, s)
         | None => OutOfBounds
         end
    else OutOfBounds.

(** The static initialiser of [nvLightning] (the same in both builds). *)
Definition nvLightning : nvLightning_t :=
  {| lastUpdate := 0;
     prevCount := -1;
     events := 0;
     distance := 0;
     timestamp := 0;
     hist := replicate LIGHTNING_HIST_SIZE 0 |}.

(** [Lightning::reset] *)
Definition reset : M unit :=
  modify (set_lastUpdate 0) ;;;
  modify (set_prevCount (-1)) ;;;
  modify (set_events (-1)) ;;;
  modify (set_distance 0) ;;;
  modify (set_timestamp 0).

(** [Lightning::hist_init(uint16_t count)] *)
Definition hist_init (count : Z) : M unit :=
  let count := to_uint16 count in
  for_each (seq 0 LIGHTNING_HIST_SIZE)
           (fun i _ => hist_store (Z.of_nat i) count) tt.

(** [int idx = timeinfo.tm_min / LIGHTNING_UPD_RATE] after
    [localtime_r(&t, &timeinfo)]; integer division truncates. *)
Definition bucket_index (t : Z) : Z := Z.quot (tm_min t) LIGHTNING_UPD_RATE.

(** The loop
    [for (ts = lastUpdate + UPD_RATE*60; ts < timestamp; ts += UPD_RATE*60)]
    that marks history entries as invalid. *)
Fixpoint invalidate_walk (fuel : nat) (ts now : Z) : M unit :=
  if ts <? now then
    match fuel with
    | O => fun _ => OutOfFuel
    | S fuel' =>
        hist_store (bucket_index ts) (-1) ;;;
        invalidate_walk fuel' (ts + LIGHTNING_UPD_RATE * 60) now
    end
  else ret tt.

(** [Lightning::update] *)
Definition update (timestamp count distance : Z) (startup : bool) : M unit :=
  let* s := get in
  when (prevCount s =? -1) (hist_init hist_init_default) ;;;
  let* s := get in
  if (prevCount s =? -1) || (count <? prevCount s) then
    (* No previous count, counter reset or counter overflow *)
    modify (set_prevCount (to_int16 count))
  else
    when (count >? prevCount s)
         ((* Save detected event *)
          modify (set_events (to_int16 (count - prevCount s))) ;;;
          modify (set_prevCount (to_int16 count)) ;;;
          modify (set_distance distance) ;;;
          modify (set_timestamp timestamp)) ;;;
    let* s := get in
    let t_delta := timestamp - lastUpdate s in
    if t_delta <? 0 then ret tt
    else
      when (t_delta >=? Z.of_nat LIGHTNING_HIST_SIZE * LIGHTNING_UPD_RATE * 60)
           (hist_init hist_init_default) ;;;
      let idx := bucket_index timestamp in
      (* the test of t_delta / 60 against 2 * LIGHTNING_UPD_RATE guards an
         empty block *)
      (* Add entry to history or update entry; the difference is the code's
         int difference as long as it fits an int *)
      let* s := get in
      hist_store idx (count - prevCount s) ;;;
      (* Mark all history entries in interval [expected_index, current_index)
         as invalid *)
      let* s := get in
      invalidate_walk (Z.to_nat t_delta)
                      (lastUpdate s + LIGHTNING_UPD_RATE * 60) timestamp.

(** [Lightning::lastEvent]; the references are left alone when it returns
    [false]. *)
Definition lastEvent (refs : lastEvent_refs) : M (bool * lastEvent_refs) :=
  let* s := get in
  if events s =? -1 then ret (false, refs)
  else
    let refs := mk_refs (ref_timestamp refs) (events s) (ref_distance refs) in
    let refs := mk_refs (ref_timestamp refs) (ref_events refs) (distance s) in
    let refs := mk_refs (timestamp s) (ref_events refs) (ref_distance refs) in
    ret (true, refs).

(** [Lightning::pastHour]; the second component is the value left in the
    reference [events].  The additions are those of [Z]: they are the
    additions of the code's [int sum] as long as no partial sum leaves the
    range of [int] ([sums_fit_int] below). *)
Definition pastHour (events : Z) : M (bool * Z) :=
  let* r :=
    for_each (seq 0 LIGHTNING_HIST_SIZE)
             (fun i '(res, sum) =>
                let* v := hist_load (Z.of_nat i) in
                if negb (v =? -1) then
                  let* w := hist_load (Z.of_nat i) in ret (true, sum + w)
                else ret (res, sum))
             (false, 0) in
  let events := snd r in
  ret (fst r, events).

(** The record holds an array of exactly [LIGHTNING_HIST_SIZE] entries. *)
Definition wf (s : nvLightning_t) : Prop :=
  length (hist s) = LIGHTNING_HIST_SIZE.

End Lightning.

(** ** Vocabulary of the specification *)

Section Vocabulary.
Context {plat : Platform}.

(** Length of one bucket period in seconds. *)
Definition period : Z := LIGHTNING_UPD_RATE * 60.

(** Length of the tracked window in seconds, as [update] compares it. *)
Definition window : Z := Z.of_nat LIGHTNING_HIST_SIZE * LIGHTNING_UPD_RATE * 60.

(** What [hist_init()] stores in every bucket. *)
Definition fill_value : Z := to_uint16 hist_init_default.

(** The bucket of a timestamp as a list position. *)
Definition bucket (t : Z) : nat := Z.to_nat (bucket_index t).

(** [tm_min] is a minute of the hour. *)
Definition clock_in_range : Prop := forall t, 0 <= tm_min t < 60.

(** The wall clock runs at a fixed offset: sixty seconds later the minute of
    the hour is the next one. *)
Definition clock_regular : Prop :=
  forall t, tm_min (t + 60) = (tm_min t + 1) mod 60.

(** Sum of the entries different from -1. *)
Definition sum_valid (h : list Z) : Z :=
  fold_right Z.add 0 (List.filter (fun v => negb (v =? -1)) h).

(** Is some entry different from -1? *)
Definition any_valid (h : list Z) : bool :=
  existsb (fun v => negb (v =? -1)) h.

(** The values of an [int], 32 bits wide. *)
Definition in_int (z : Z) : Prop := -2147483648 <= z <= 2147483647.

(** No addition of [pastHour] overflows: started with [sum], the loop over
    the entries [h] keeps every value of [int sum] within [int]. *)
Fixpoint sums_fit_int (sum : Z) (h : list Z) : Prop :=
  match h with
  | [] => True
  | v :: h' =>
      if v =? -1 then sums_fit_int sum h'
      else in_int (sum + v) /\ sums_fit_int (sum + v) h'
  end.

(** Number of period boundaries strictly between [last] and [now]. *)
Definition gap_count (last now : Z) : nat := Z.to_nat ((now - last - 1) / period).

(** The buckets of those boundaries, in the order of the walk. *)
Definition gap_buckets (last now : Z) : list nat :=
  (fun k : nat => bucket (last + Z.of_nat k * period))
    <$> seq 1 (gap_count last now).

(** The buckets in [gap] are distinct, none is [cur], each reads -1 in [h'],
    and outside [gap] and [cur] the array [h'] agrees with [h]. *)
Definition invalidates (gap : list nat) (cur : nat) (h h' : list Z) : Prop :=
  NoDup gap /\
  (cur ∉ gap) /\
  (forall i, i ∈ gap -> h' !! i = Some (-1)) /\
  (forall i, i ∉ gap -> i <> cur -> h' !! i = h !! i).

(** The record once [update] is past the counter comparison: the event
    snapshot is taken when the counter has grown. *)
Definition after_counter (now count distance : Z) (s : nvLightning_t)
    : nvLightning_t :=
  if count >? prevCount s then
    set_timestamp now
      (set_distance distance
         (set_prevCount (to_int16 count)
            (set_events (to_int16 (count - prevCount s)) s)))
  else s.

(** The history as [update] finds it after the expiry test. *)
Definition after_expiry (now : Z) (s : nvLightning_t) : list Z :=
  if now - lastUpdate s >=? window
  then replicate LIGHTNING_HIST_SIZE fill_value
  else hist s.

(** A call re-baselined the counter at [count] and changed nothing else. *)
Definition rebaselined (s : nvLightning_t) (count : Z)
    (o : outcome (unit * nvLightning_t)) : Prop :=
  exists s',
    o = Returns (tt, s') /\
    prevCount s' = count /\
    events s' = events s /\
    distance s' = distance s /\
    timestamp s' = timestamp s /\
    hist s' = hist s /\
    lastUpdate s' = lastUpdate s.

(** A cold-start call took [count] as the baseline, reset the history and
    recorded no event. *)
Definition cold_started (s : nvLightning_t) (count : Z)
    (o : outcome (unit * nvLightning_t)) : Prop :=
  exists s',
    o = Returns (tt, s') /\
    prevCount s' = count /\
    events s' = events s /\
    distance s' = distance s /\
    timestamp s' = timestamp s /\
    hist s' = replicate LIGHTNING_HIST_SIZE fill_value.

(** *** The claims that do not hold as they are written *)

(** Cold start takes the raw counter as baseline, for every raw counter. *)
Definition cold_start_as_stated (s : nvLightning_t)
    (now count distance : Z) (startup : bool) : Prop :=
  wf s -> prevCount s = -1 ->
  cold_started s count (update now count distance startup s).

(** After window expiry every bucket but the current one holds the fill
    value. *)
Definition expiry_as_stated (s : nvLightning_t)
    (now count distance : Z) (startup : bool) : Prop :=
  wf s -> prevCount s <> -1 -> prevCount s <= count ->
  window <= now - lastUpdate s ->
  exists s',
    update now count distance startup s = Returns (tt, s') /\
    forall i v, i <> bucket now -> hist s' !! i = Some v -> v = fill_value.

(** An update [n] periods after the last one invalidates exactly [n]
    buckets. *)
Definition gap_as_stated (s : nvLightning_t) (n : nat)
    (count distance : Z) (startup : bool) : Prop :=
  let now := lastUpdate s + Z.of_nat n * period in
  wf s -> prevCount s <> -1 -> prevCount s <= count ->
  (1 <= n)%nat -> (n < LIGHTNING_HIST_SIZE)%nat ->
  exists s',
    update now count distance startup s = Returns (tt, s') /\
    exists gap,
      length gap = n /\ invalidates gap (bucket now) (hist s) (hist s').

(** [HIST_SIZE * UPD_RATE <= 60] keeps the bucket index inside the array. *)
Definition index_bound_as_stated : Prop :=
  0 < LIGHTNING_UPD_RATE -> clock_in_range ->
  Z.of_nat LIGHTNING_HIST_SIZE * LIGHTNING_UPD_RATE <= 60 ->
  forall t, 0 <= bucket_index t < Z.of_nat LIGHTNING_HIST_SIZE.

End Vocabulary.

(** ** Concrete platforms and records *)

(** Minute of the hour in UTC. *)
Definition utc_min (t : Z) : Z := (t / 60) mod 60.

(** Six buckets of ten minutes, the constants of the specification's
    scenario, with [hist_init(uint16_t count = 0)] and a clock in UTC. *)
Definition six_by_ten : Platform :=
  {| LIGHTNING_HIST_SIZE := 6;
     LIGHTNING_UPD_RATE := 10;
     hist_init_default := 0;
     tm_min := utc_min |}.

(** Six buckets of ten minutes, [hist_init(uint16_t count = -1)]. *)
Definition six_by_ten_minus_one : Platform :=
  {| LIGHTNING_HIST_SIZE := 6;
     LIGHTNING_UPD_RATE := 10;
     hist_init_default := -1;
     tm_min := utc_min |}.

(** Five buckets of ten minutes: the product is 50. *)
Definition five_by_ten : Platform :=
  {| LIGHTNING_HIST_SIZE := 5;
     LIGHTNING_UPD_RATE := 10;
     hist_init_default := 0;
     tm_min := utc_min |}.

(** A record with baseline 5, no event yet and six distinguishable buckets. *)
Definition baseline_5 : nvLightning_t :=
  {| lastUpdate := 0; prevCount := 5; events := -1; distance := 0;
     timestamp := 0; hist := [1; 2; 3; 4; 5; 6] |}.

(** The record after [reset()]: every sentinel in place. *)
Definition all_sentinel : nvLightning_t :=
  {| lastUpdate := 0; prevCount := -1; events := -1; distance := 0;
     timestamp := 0; hist := [0; 0; 0; 0; 0; 0] |}.

(** A record with an event on file and a partly invalid history. *)
Definition with_event : nvLightning_t :=
  {| lastUpdate := 1200; prevCount := 8; events := 3; distance := 3;
     timestamp := 600; hist := [0; 3; -1; -1; 2; -1] |}.

(** ** Reports in sequence and the ranges of the record *)

(** One sensor report, the arguments of a call of [update]. *)
Record report : Type := mk_report {
  r_timestamp : Z;
  r_count : Z;
  r_distance : Z;
  r_startup : bool
}.

(** A caller that hands a list of reports to [update], one after the
    other. *)
Fixpoint run_reports {plat : Platform} (rs : list report) : M unit :=
  match rs with
  | [] => ret tt
  | r :: rs' =>
      update (r_timestamp r) (r_count r) (r_distance r) (r_startup r) ;;;
      run_reports rs'
  end.

(** The values of an [int16_t]. *)
Definition in_int16 (z : Z) : Prop := -32768 <= z <= 32767.

(** A report whose arguments keep the arithmetic of [update] within its
    types: the raw counter is an [int] from which every [int16_t] baseline
    can be subtracted without overflow, the distance is a [uint8_t], and the
    timestamp is far from the ends of the 64-bit [time_t]. *)
Definition plain_report (r : report) : Prop :=
  -2147483648 <= r_count r <= 2147450879 /\
  0 <= r_distance r < 256 /\
  -4611686018427387904 < r_timestamp r < 4611686018427387904.

(** The record has its array, its two [int16_t] fields are in range,
    [lastUpdate] is far from the ends of [time_t], and every bucket is the
    sentinel -1 or a non-negative [int]. *)
Definition consistent {plat : Platform} (s : nvLightning_t) : Prop :=
  wf s /\
  in_int16 (prevCount s) /\
  in_int16 (events s) /\
  -4611686018427387904 < lastUpdate s < 4611686018427387904 /\
  (forall v, v ∈ hist s -> -1 <= v <= 2147483647).

(** The three facts about the platform under which every subscript of
    [update] is inside the array. *)
Definition covers_the_hour {plat : Platform} : Prop :=
  0 < LIGHTNING_UPD_RATE /\
  clock_in_range /\
  60 <= Z.of_nat LIGHTNING_HIST_SIZE * LIGHTNING_UPD_RATE.

(** ** The build with [LIGHTNING_USE_PREFS]

    With [LIGHTNING_USE_PREFS] the record is loaded from and saved to the
    namespace "BWS-LGT" of the Arduino [Preferences] class.  That class is
    not part of the sources; it is modelled as a finite map from keys to
    typed values with the behaviour its interface documents: a putter stores
    the value converted to its parameter type, a getter returns, in its
    return type, the stored value of its type or else its default argument,
    and [getBytes] copies
    the stored bytes over the front of the buffer unless they are longer
    than the buffer.  The blob under "hist" is kept as the list of its [int]
    entries.  [begin] and [end] open and close the namespace and are not
    modelled. *)

(** Conversions to [uint8_t] and [uint64_t], and from [uint64_t] to the
    64-bit [time_t]. *)
Definition to_uint8 (z : Z) : Z := z mod 256.

Definition to_uint64 (z : Z) : Z := z mod 18446744073709551616.

Definition to_int64 (z : Z) : Z :=
  (z + 9223372036854775808) mod 18446744073709551616 - 9223372036854775808.

Inductive pref_value : Type :=
  | PUChar (v : Z)
  | PUShort (v : Z)
  | PULong64 (v : Z)
  | PBytes (l : list Z).

Definition putUChar (key : string) (value : Z)
    (p : gmap string pref_value) : gmap string pref_value :=
  <[key := PUChar (to_uint8 value)]> p.

Definition putUShort (key : string) (value : Z)
    (p : gmap string pref_value) : gmap string pref_value :=
  <[key := PUShort (to_uint16 value)]> p.

Definition putULong64 (key : string) (value : Z)
    (p : gmap string pref_value) : gmap string pref_value :=
  <[key := PULong64 (to_uint64 value)]> p.

Definition putBytes (key : string) (value : list Z)
    (p : gmap string pref_value) : gmap string pref_value :=
  <[key := PBytes value]> p.

Definition getUChar (key : string) (defaultValue : Z)
    (p : gmap string pref_value) : Z :=
  match p !! key with
  | Some (PUChar v) => to_uint8 v
  | _ => to_uint8 defaultValue
  end.

Definition getUShort (key : string) (defaultValue : Z)
    (p : gmap string pref_value) : Z :=
  match p !! key with
  | Some (PUShort v) => to_uint16 v
  | _ => to_uint16 defaultValue
  end.

Definition getULong64 (key : string) (defaultValue : Z)
    (p : gmap string pref_value) : Z :=
  match p !! key with
  | Some (PULong64 v) => to_uint64 v
  | _ => to_uint64 defaultValue
  end.

Definition getBytes (key : string) (buf : list Z)
    (p : gmap string pref_value) : list Z :=
  match p !! key with
  | Some (PBytes l) =>
      if (length l <=? length buf)%nat then l ++ drop (length l) buf else buf
  | _ => buf
  end.

(** The record in memory and the contents of the namespace. *)
Record prefs_build : Type := mk_prefs_build {
  ram : nvLightning_t;
  preferences : gmap string pref_value
}.

Definition MP (A : Type) : Type := prefs_build -> outcome (A * prefs_build).

Definition retP {A : Type} (a : A) : MP A := fun w => Returns (a, w).

Definition bindP {A B : Type} (m : MP A) (k : A -> MP B) : MP B :=
  fun w =>
    match m w with
    | Returns (a, w') => k a w'
    | OutOfBounds => OutOfBounds
    | OutOfFuel => OutOfFuel
    end.

(** A computation on the record in memory. *)
Definition in_ram {A : Type} (m : M A) : MP A :=
  fun w =>
    match m (ram w) with
    | Returns (a, s') => Returns (a, mk_prefs_build s' (preferences w))
    | OutOfBounds => OutOfBounds
    | OutOfFuel => OutOfFuel
    end.

(** Reading from and writing to the namespace. *)
Definition from_prefs {A : Type} (getter : gmap string pref_value -> A) : MP A :=
  fun w => Returns (getter (preferences w), w).

Definition to_prefs
    (putter : gmap string pref_value -> gmap string pref_value) : MP unit :=
  fun w => Returns (tt, mk_prefs_build (ram w) (putter (preferences w))).

Notation "'let+' x ':=' m 'in' k" := (bindP m (fun x => k))
  (at level 10, x name, m at level 100, k at level 200).
Notation "m ';;+' k" := (bindP m (fun _ => k))
  (at level 100, k at level 200, right associativity).

(** [Lightning::prefs_load] *)
Definition prefs_load : MP unit :=
  let+ v := from_prefs (getULong64 "lastUpdate" 0) in
  in_ram (modify (set_lastUpdate (to_int64 v))) ;;+
  let+ v := from_prefs (getUShort "prevCount" (-1)) in
  in_ram (modify (set_prevCount (to_int16 v))) ;;+
  let+ v := from_prefs (getUShort "events" (-1)) in
  in_ram (modify (set_events (to_int16 v))) ;;+
  let+ v := from_prefs (getUChar "distance" 0) in
  in_ram (modify (set_distance v)) ;;+
  let+ v := from_prefs (getULong64 "timestamp" 0) in
  in_ram (modify (set_timestamp (to_int64 v))) ;;+
  let+ s := in_ram get in
  let+ v := from_prefs (getBytes "hist" (hist s)) in
  in_ram (modify (set_hist v)).

(** [Lightning::prefs_save] *)
Definition prefs_save : MP unit :=
  let+ s := in_ram get in
  to_prefs (putULong64 "lastUpdate" (lastUpdate s)) ;;+
  let+ s := in_ram get in
  to_prefs (putUShort "prevCount" (prevCount s)) ;;+
  let+ s := in_ram get in
  to_prefs (putUShort "events" (events s)) ;;+
  let+ s := in_ram get in
  to_prefs (putUChar "distance" (distance s)) ;;+
  let+ s := in_ram get in
  to_prefs (putULong64 "timestamp" (timestamp s)) ;;+
  let+ s := in_ram get in
  to_prefs (putBytes "hist" (hist s)).

(** [Lightning::update] as built with [LIGHTNING_USE_PREFS]: the record is
    loaded first and saved at the end of the function, which the three
    [return] statements do not reach. *)
Definition update_prefs {plat : Platform}
    (timestamp count distance : Z) (startup : bool) : MP unit :=
  prefs_load ;;+
  let+ s := in_ram get in
  in_ram (when (prevCount s =? -1) (hist_init hist_init_default)) ;;+
  let+ s := in_ram get in
  if (prevCount s =? -1) || (count <? prevCount s) then
    in_ram (modify (set_prevCount (to_int16 count)))
  else
    in_ram (when (count >? prevCount s)
              (modify (set_events (to_int16 (count - prevCount s))) ;;;
               modify (set_prevCount (to_int16 count)) ;;;
               modify (set_distance distance) ;;;
               modify (set_timestamp timestamp))) ;;+
    let+ s := in_ram get in
    let t_delta := timestamp - lastUpdate s in
    if t_delta <? 0 then retP tt
    else
      in_ram (when (t_delta >=? Z.of_nat LIGHTNING_HIST_SIZE * LIGHTNING_UPD_RATE * 60)
                (hist_init hist_init_default)) ;;+
      let idx := bucket_index timestamp in
      let+ s := in_ram get in
      in_ram (hist_store idx (count - prevCount s)) ;;+
      let+ s := in_ram get in
      in_ram (invalidate_walk (Z.to_nat t_delta)
                (lastUpdate s + LIGHTNING_UPD_RATE * 60) timestamp) ;;+
      prefs_save.

(** A caller of the [LIGHTNING_USE_PREFS] build. *)
Fixpoint run_reports_prefs {plat : Platform} (rs : list report) : MP unit :=
  match rs with
  | [] => retP tt
  | r :: rs' =>
      update_prefs (r_timestamp r) (r_count r) (r_distance r) (r_startup r) ;;+
      run_reports_prefs rs'
  end.

(** The record that [prefs_load] leaves in memory. *)
Definition loaded (p : gmap string pref_value) (s : nvLightning_t)
    : nvLightning_t :=
  {| lastUpdate := to_int64 (getULong64 "lastUpdate" 0 p);
     prevCount := to_int16 (getUShort "prevCount" (-1) p);
     events := to_int16 (getUShort "events" (-1) p);
     distance := getUChar "distance" 0 p;
     timestamp := to_int64 (getULong64 "timestamp" 0 p);
     hist := getBytes "hist" (hist s) p |}.

(** The namespace that [prefs_save] leaves. *)
Definition saved (s : nvLightning_t) (p : gmap string pref_value)
    : gmap string pref_value :=
  putBytes "hist" (hist s)
    (putULong64 "timestamp" (timestamp s)
       (putUChar "distance" (distance s)
          (putUShort "events" (events s)
             (putUShort "prevCount" (prevCount s)
                (putULong64 "lastUpdate" (lastUpdate s) p))))).

(** Does a call of [update] on the record [s] take one of the three
    [return] statements? *)
Definition returns_early (s : nvLightning_t) (now count : Z) : bool :=
  (prevCount s =? -1) || (count <? prevCount s) || (now - lastUpdate s <? 0).

(** The fields of the record have the values of their C types. *)
Definition in_c_ranges (s : nvLightning_t) : Prop :=
  -9223372036854775808 <= lastUpdate s < 9223372036854775808 /\
  in_int16 (prevCount s) /\
  in_int16 (events s) /\
  0 <= distance s < 256 /\
  -9223372036854775808 <= timestamp s < 9223372036854775808.

(** Three reports: a gain of 3, a regression, and a gain far beyond 16
    bits. *)
Definition three_reports : list report :=
  [ mk_report 600 8 3 false; mk_report 1200 2 1 false;
    mk_report 1800 70000 4 false ].

(** A device whose namespace has never been written. *)
Definition fresh_device : prefs_build :=
  {| ram := all_sentinel; preferences := ∅ |}.

(** A device after a reboot: the sentinels in memory, and in the namespace
    what [prefs_save] wrote for a record with baseline 5. *)
Definition saved_device : prefs_build :=
  {| ram := all_sentinel; preferences := saved baseline_5 ∅ |}.

(** ** Machine integers *)

Lemma to_int16_id (z : Z) : -32768 <= z <= 32767 -> to_int16 z = z.
Proof.
  intros Hz. unfold to_int16.
  rewrite Z.mod_small by lia. lia.
Qed.

Lemma to_int16_range (z : Z) : -32768 <= to_int16 z <= 32767.
Proof.
  unfold to_int16.
  pose proof (Z.mod_pos_bound (z + 32768) 65536 ltac:(lia)). lia.
Qed.

Lemma to_uint16_range (z : Z) : 0 <= to_uint16 z < 65536.
Proof. unfold to_uint16. apply Z.mod_pos_bound. lia. Qed.

(** ** The UTC clock *)

Lemma utc_min_in_range (t : Z) : 0 <= utc_min t < 60.
Proof. unfold utc_min. apply Z.mod_pos_bound. lia. Qed.

Lemma utc_min_regular (t : Z) : utc_min (t + 60) = (utc_min t + 1) mod 60.
Proof.
  unfold utc_min.
  replace (t + 60) with (t + 1 * 60) by lia.
  rewrite Z.div_add by lia.
  rewrite (Z.add_mod (t / 60) 1 60) by lia.
  rewrite (Z.add_mod (t / 60 mod 60) 1 60) by lia.
  rewrite Z.mod_mod by lia. reflexivity.
Qed.

(** ** Array accesses and loops *)

Section Proofs.
Context {plat : Platform}.

Lemma hist_store_in_bounds (idx v : Z) (s : nvLightning_t) :
  0 <= idx < Z.of_nat LIGHTNING_HIST_SIZE ->
  hist_store idx v s = Returns (tt, set_hist (<[Z.to_nat idx := v]> (hist s)) s).
Proof.
  intros Hidx. unfold hist_store.
  destruct (0 <=? idx) eqn:E1; [|lia].
  destruct (idx <? Z.of_nat LIGHTNING_HIST_SIZE) eqn:E2; [|lia].
  reflexivity.
Qed.

Lemma hist_load_in_bounds (i : nat) (v : Z) (s : nvLightning_t) :
  (i < LIGHTNING_HIST_SIZE)%nat -> hist s !! i = Some v ->
  hist_load (Z.of_nat i) s = Returns (v, s).
Proof.
  intros Hi Hv. unfold hist_load.
  destruct (0 <=? Z.of_nat i) eqn:E1; [|lia].
  destruct (Z.of_nat i <? Z.of_nat LIGHTNING_HIST_SIZE) eqn:E2; [|lia].
  simpl. rewrite Nat2Z.id, Hv. reflexivity.
Qed.

(** The filling loop, started at position [a] with [n] positions to go. *)
Lemma fill_loop (c : Z) (n a : nat) (s : nvLightning_t) :
  (a + n)%nat = LIGHTNING_HIST_SIZE ->
  length (hist s) = LIGHTNING_HIST_SIZE ->
  for_each (seq a n) (fun i _ => hist_store (Z.of_nat i) c) tt s
  = Returns (tt, set_hist (take a (hist s) ++ replicate n c) s).
Proof.
  revert a s. induction n as [|n IH]; intros a s Han Hlen.
  - simpl. unfold ret. f_equal. f_equal.
    rewrite app_nil_r, firstn_all2 by lia. destruct s; reflexivity.
  - simpl. unfold bind.
    rewrite hist_store_in_bounds by lia. rewrite Nat2Z.id.
    rewrite IH; simpl; [| lia | rewrite length_insert; exact Hlen].
    unfold set_hist. simpl. do 3 f_equal.
    destruct (lookup_lt_is_Some_2 (hist s) a ltac:(lia)) as [x Hx].
    rewrite (take_S_r (<[a:=c]> (hist s)) a c).
    + rewrite take_insert_ge by lia. rewrite <- app_assoc. reflexivity.
    + apply list_lookup_insert_eq. lia.
Qed.

Lemma hist_init_returns (c : Z) (s : nvLightning_t) :
  wf s ->
  hist_init c s
  = Returns (tt, set_hist (replicate LIGHTNING_HIST_SIZE (to_uint16 c)) s).
Proof.
  intros Hwf. unfold hist_init.
  rewrite fill_loop by (try exact Hwf; lia). reflexivity.
Qed.

(** Because the parameter of [hist_init] is unsigned, the value it stores is
    never the sentinel -1. *)
Lemma fill_value_not_sentinel : 0 <= fill_value < 65536 /\ fill_value <> -1.
Proof.
  pose proof (to_uint16_range hist_init_default) as Hr.
  unfold fill_value. split; [exact Hr | lia].
Qed.

(** The invalidation walk from [ts] finishes within [fuel] steps and marks
    exactly the buckets of the boundaries [ts + k * period] before [now]. *)
Lemma invalidate_walk_returns (now : Z) :
  0 < LIGHTNING_UPD_RATE ->
  (forall t, 0 <= bucket_index t < Z.of_nat LIGHTNING_HIST_SIZE) ->
  forall (fuel : nat) (ts : Z) (s : nvLightning_t),
    wf s -> now - ts <= Z.of_nat fuel ->
    exists h',
      invalidate_walk fuel ts now s = Returns (tt, set_hist h' s) /\
      length h' = LIGHTNING_HIST_SIZE /\
      (forall k, 0 <= k -> ts + k * period < now ->
                 h' !! bucket (ts + k * period) = Some (-1)) /\
      (forall i, (forall k, 0 <= k -> ts + k * period < now ->
                            bucket (ts + k * period) <> i) ->
                 h' !! i = hist s !! i) /\
      (forall i, h' !! i = Some (-1) \/ h' !! i = hist s !! i).
Proof.
  intros Hrate Hidx. unfold period.
  induction fuel as [|fuel IH]; intros ts s Hwf Hfuel; simpl.
  - destruct (ts <? now) eqn:E; [lia|].
    exists (hist s). unfold ret.
    split; [destruct s; reflexivity|].
    split; [exact Hwf|].
    split; [intros k Hk Hlt; nia|].
    split; [reflexivity | right; reflexivity].
  - destruct (ts <? now) eqn:E.
    + unfold bind. rewrite hist_store_in_bounds by apply Hidx.
      assert (Hf : now - (ts + LIGHTNING_UPD_RATE * 60) <= Z.of_nat fuel) by lia.
      set (s1 := set_hist (<[Z.to_nat (bucket_index ts) := -1]> (hist s)) s).
      assert (Hwf1 : wf s1) by (unfold wf, s1; simpl; rewrite length_insert; exact Hwf).
      destruct (IH (ts + LIGHTNING_UPD_RATE * 60) s1 Hwf1 Hf)
        as (h' & Hrun & Hlen & Hhit & Hmiss & Hany).
      assert (Hb : (Z.to_nat (bucket_index ts) < length (hist s))%nat).
      { rewrite Hwf. specialize (Hidx ts). lia. }
      exists h'. split; [rewrite Hrun; reflexivity|].
      split; [exact Hlen|].
      split; [|split].
      * intros k Hk Hlt.
        destruct (Z.eq_dec k 0) as [->|Hk0].
        -- replace (ts + 0 * (LIGHTNING_UPD_RATE * 60)) with ts by lia.
           destruct (Hany (bucket ts)) as [Hm|Hm]; [exact Hm|].
           rewrite Hm. unfold s1, bucket. simpl.
           apply list_lookup_insert_eq. exact Hb.
        -- replace (ts + k * (LIGHTNING_UPD_RATE * 60))
             with (ts + LIGHTNING_UPD_RATE * 60 + (k - 1) * (LIGHTNING_UPD_RATE * 60))
             by lia.
           apply Hhit; lia.
      * intros i Hi.
        rewrite Hmiss.
        -- unfold s1. simpl. apply list_lookup_insert_ne.
           specialize (Hi 0 ltac:(lia)).
           replace (ts + 0 * (LIGHTNING_UPD_RATE * 60)) with ts in Hi by lia.
           apply Hi. lia.
        -- intros k Hk Hlt.
           replace (ts + LIGHTNING_UPD_RATE * 60 + k * (LIGHTNING_UPD_RATE * 60))
             with (ts + (k + 1) * (LIGHTNING_UPD_RATE * 60)) in * by lia.
           apply Hi; lia.
      * intros i. destruct (Hany i) as [Hm|Hm]; [left; exact Hm|].
        rewrite Hm. unfold s1. simpl.
        destruct (Nat.eq_dec (Z.to_nat (bucket_index ts)) i) as [<-|Hne].
        -- left. apply list_lookup_insert_eq. exact Hb.
        -- right. apply list_lookup_insert_ne. exact Hne.
    + exists (hist s). unfold ret.
      split; [destruct s; reflexivity|].
      split; [exact Hwf|].
      split; [intros k Hk Hlt; nia|].
      split; [reflexivity | right; reflexivity].
Qed.

(** ** The paths through [update] *)

Lemma update_cold_start (now count distance : Z) (startup : bool)
    (s : nvLightning_t) :
  wf s -> prevCount s = -1 ->
  update now count distance startup s
  = Returns (tt, set_prevCount (to_int16 count)
                   (set_hist (replicate LIGHTNING_HIST_SIZE fill_value) s)).
Proof.
  intros Hwf Hcold. unfold update, bind, get, when.
  rewrite Hcold. simpl.
  rewrite hist_init_returns by exact Hwf. simpl.
  rewrite Hcold. reflexivity.
Qed.

Lemma update_regression (now count distance : Z) (startup : bool)
    (s : nvLightning_t) :
  prevCount s <> -1 -> count < prevCount s ->
  update now count distance startup s
  = Returns (tt, set_prevCount (to_int16 count) s).
Proof.
  intros Hwarm Hless.
  apply Z.eqb_neq in Hwarm. apply Z.ltb_lt in Hless.
  cbv beta iota delta [update bind get when ret modify].
  rewrite !Hwarm, Hless. reflexivity.
Qed.

Lemma after_counter_lastUpdate (now count distance : Z) (s : nvLightning_t) :
  lastUpdate (after_counter now count distance s) = lastUpdate s.
Proof. unfold after_counter. destruct (count >? prevCount s); reflexivity. Qed.

Lemma after_counter_hist (now count distance : Z) (s : nvLightning_t) :
  hist (after_counter now count distance s) = hist s.
Proof. unfold after_counter. destruct (count >? prevCount s); reflexivity. Qed.

(** Up to the test of the elapsed time, a call that is neither a cold start
    nor a regression has only taken the event snapshot. *)
Lemma update_counter_part (now count distance : Z) (startup : bool)
    (s : nvLightning_t) :
  prevCount s <> -1 -> prevCount s <= count ->
  update now count distance startup s
  = (let m := after_counter now count distance s in
     let t_delta := now - lastUpdate m in
     if t_delta <? 0 then Returns (tt, m)
     else
       (when (t_delta >=? window) (hist_init hist_init_default) ;;;
        let* s := get in
        hist_store (bucket_index now) (count - prevCount s) ;;;
        let* s := get in
        invalidate_walk (Z.to_nat t_delta) (lastUpdate s + period) now) m).
Proof.
  intros Hwarm Hgrow.
  apply Z.eqb_neq in Hwarm. apply Z.ltb_ge in Hgrow.
  cbv beta iota delta [update bind get when ret modify after_counter].
  rewrite !Hwarm, Hgrow. cbv beta iota delta [orb].
  destruct (count >? prevCount s); cbv beta iota zeta.
  - destruct (_ <? 0); reflexivity.
  - destruct (_ <? 0); reflexivity.
Qed.

(** The history part of [update]: the result is the history after the expiry
    test, with the current bucket written and the buckets of the boundaries
    [lastUpdate + k * period] before [now] set to -1 afterwards. *)
Lemma update_history (now count distance : Z) (startup : bool)
    (s : nvLightning_t) :
  0 < LIGHTNING_UPD_RATE ->
  (forall t, 0 <= bucket_index t < Z.of_nat LIGHTNING_HIST_SIZE) ->
  wf s -> prevCount s <> -1 -> prevCount s <= count ->
  0 <= now - lastUpdate s ->
  let m := after_counter now count distance s in
  let h0 := <[bucket now := count - prevCount m]> (after_expiry now s) in
  exists h',
    update now count distance startup s = Returns (tt, set_hist h' m) /\
    length h' = LIGHTNING_HIST_SIZE /\
    (forall k, 1 <= k -> lastUpdate s + k * period < now ->
               h' !! bucket (lastUpdate s + k * period) = Some (-1)) /\
    (forall i, (forall k, 1 <= k -> lastUpdate s + k * period < now ->
                          bucket (lastUpdate s + k * period) <> i) ->
               h' !! i = h0 !! i) /\
    (forall i, h' !! i = Some (-1) \/ h' !! i = h0 !! i).
Proof.
  intros Hrate Hidx Hwf Hwarm Hgrow Hdelta m h0.
  rewrite update_counter_part by assumption. fold m. cbv zeta.
  assert (Hlast : lastUpdate m = lastUpdate s) by apply after_counter_lastUpdate.
  assert (Hhist : hist m = hist s) by apply after_counter_hist.
  assert (Hwfm : wf m) by (unfold wf; rewrite Hhist; exact Hwf).
  rewrite Hlast.
  destruct (now - lastUpdate s <? 0) eqn:E0; [lia|].
  set (m1 := set_hist h0 m).
  assert (Hwf1 : wf m1).
  { unfold wf, m1, h0, after_expiry. simpl. rewrite length_insert.
    destruct (_ >=? _); [apply length_replicate | exact Hwf]. }
  assert (Hfuel : now - (lastUpdate m1 + period)
                  <= Z.of_nat (Z.to_nat (now - lastUpdate s))).
  { unfold m1, period. simpl. rewrite Hlast. lia. }
  destruct (invalidate_walk_returns now Hrate Hidx _ _ m1 Hwf1 Hfuel)
    as (h' & Hrun & Hlen & Hhit & Hmiss & Hany).
  exists h'.
  assert (Hrun' :
    (when (now - lastUpdate s >=? window) (hist_init hist_init_default) ;;;
     let* s0 := get in
     hist_store (bucket_index now) (count - prevCount s0) ;;;
     let* s1 := get in
     invalidate_walk (Z.to_nat (now - lastUpdate s)) (lastUpdate s1 + period) now)
      m = Returns (tt, set_hist h' m)).
  { unfold bind, when, get. unfold h0, after_expiry in m1.
    destruct (now - lastUpdate s >=? window).
    - rewrite hist_init_returns by exact Hwfm. simpl.
      rewrite hist_store_in_bounds by apply Hidx. simpl.
      exact Hrun.
    - unfold ret. rewrite hist_store_in_bounds by apply Hidx. simpl.
      rewrite Hhist. exact Hrun. }
  split; [exact Hrun'|].
  split; [exact Hlen|].
  unfold m1 in Hhit, Hmiss, Hany. simpl in Hhit, Hmiss, Hany.
  rewrite Hlast in Hhit, Hmiss.
  split; [|split].
  - intros k Hk Hlt.
    replace (lastUpdate s + k * period)
      with (lastUpdate s + period + (k - 1) * period) by lia.
    apply Hhit; lia.
  - intros i Hi. apply Hmiss. intros k Hk Hlt.
    replace (lastUpdate s + period + k * period)
      with (lastUpdate s + (k + 1) * period) in * by lia.
    apply Hi; lia.
  - exact Hany.
Qed.

(** [update] has no assignment to [lastUpdate]: whichever path a call takes,
    the field is the one the call found. *)
Lemma update_keeps_lastUpdate (now count distance : Z) (startup : bool)
    (s : nvLightning_t) :
  0 < LIGHTNING_UPD_RATE ->
  (forall t, 0 <= bucket_index t < Z.of_nat LIGHTNING_HIST_SIZE) ->
  wf s ->
  exists s',
    update now count distance startup s = Returns (tt, s') /\
    wf s' /\ lastUpdate s' = lastUpdate s.
Proof.
  intros Hrate Hidx Hwf.
  destruct (Z.eq_dec (prevCount s) (-1)) as [Hcold|Hwarm].
  { rewrite update_cold_start by assumption.
    eexists; split; [reflexivity|]. split; [|reflexivity].
    unfold wf. simpl. apply length_replicate. }
  destruct (Z_lt_le_dec count (prevCount s)) as [Hless|Hgrow].
  { rewrite update_regression by assumption.
    eexists; split; [reflexivity|]. split; [exact Hwf | reflexivity]. }
  destruct (Z_lt_le_dec (now - lastUpdate s) 0) as [Hneg|Hpos].
  { rewrite update_counter_part by assumption. cbv zeta.
    rewrite after_counter_lastUpdate.
    destruct (now - lastUpdate s <? 0) eqn:E; [|lia].
    eexists; split; [reflexivity|].
    split; [|apply after_counter_lastUpdate].
    unfold wf. rewrite after_counter_hist. exact Hwf. }
  destruct (update_history now count distance startup s
              Hrate Hidx Hwf Hwarm Hgrow Hpos)
    as (h' & Hrun & Hlen & _).
  rewrite Hrun. eexists; split; [reflexivity|].
  split; [exact Hlen|]. simpl. apply after_counter_lastUpdate.
Qed.

(** However the counter moved, the entry that [update] stores in the current
    bucket is computed from the baseline it has just overwritten. *)
Lemma current_bucket_value (now count distance : Z) (s : nvLightning_t) :
  prevCount s <= count -> -32768 <= count <= 32767 ->
  count - prevCount (after_counter now count distance s) = 0.
Proof.
  intros Hgrow Hrange. unfold after_counter.
  destruct (count >? prevCount s) eqn:E; simpl.
  - rewrite to_int16_id by exact Hrange. lia.
  - lia.
Qed.

(** ** The query functions *)

(** The loop of [pastHour] from position [a] on. *)
Lemma pastHour_loop (n a : nat) (res : bool) (sum : Z) (s : nvLightning_t) :
  (a + n)%nat = LIGHTNING_HIST_SIZE ->
  length (hist s) = LIGHTNING_HIST_SIZE ->
  for_each (seq a n)
           (fun i '(res, sum) =>
              let* v := hist_load (Z.of_nat i) in
              if negb (v =? -1) then
                let* w := hist_load (Z.of_nat i) in ret (true, sum + w)
              else ret (res, sum))
           (res, sum) s
  = Returns ((res || any_valid (drop a (hist s)),
              sum + sum_valid (drop a (hist s))), s).
Proof.
  revert a res sum. induction n as [|n IH]; intros a res sum Han Hlen.
  - simpl. rewrite drop_ge by lia. simpl.
    rewrite orb_false_r, Z.add_0_r. reflexivity.
  - destruct (lookup_lt_is_Some_2 (hist s) a ltac:(lia)) as [x Hx].
    rewrite (drop_S _ _ _ Hx).
    simpl. unfold bind at 1. unfold bind at 1.
    rewrite (hist_load_in_bounds a x s) by (try exact Hx; lia).
    unfold any_valid, sum_valid. simpl.
    destruct (negb (x =? -1)) eqn:E; simpl.
    + unfold bind at 1.
      rewrite (hist_load_in_bounds a x s) by (try exact Hx; lia).
      unfold ret at 1.
      rewrite IH by (try exact Hlen; lia).
      unfold any_valid, sum_valid.
      rewrite orb_true_r, Z.add_assoc. reflexivity.
    + unfold ret at 1.
      rewrite IH by (try exact Hlen; lia). reflexivity.
Qed.

Lemma any_valid_true (h : list Z) :
  any_valid h = true <-> exists v, v ∈ h /\ v <> -1.
Proof.
  unfold any_valid. rewrite existsb_exists. split.
  - intros (v & Hin & Hv). exists v. split; [apply list_elem_of_In; exact Hin|].
    apply negb_true_iff, Z.eqb_neq in Hv. exact Hv.
  - intros (v & Hin & Hv). exists v. split; [apply list_elem_of_In; exact Hin|].
    apply negb_true_iff, Z.eqb_neq. exact Hv.
Qed.

Lemma sum_valid_all_invalid (h : list Z) :
  (forall v, v ∈ h -> v = -1) -> sum_valid h = 0.
Proof.
  unfold sum_valid. induction h as [|x h IH]; intros Hall; simpl; [reflexivity|].
  rewrite (Hall x) by apply list_elem_of_here. simpl.
  apply IH. intros v Hv. apply Hall. apply list_elem_of_further. exact Hv.
Qed.

(** As long as no addition overflows, the sum is an [int]. *)
Lemma sums_fit_int_total (h : list Z) (sum : Z) :
  in_int sum -> sums_fit_int sum h -> in_int (sum + sum_valid h).
Proof.
  unfold sum_valid. revert sum.
  induction h as [|x h IH]; intros sum Hsum Hfit; simpl.
  - rewrite Z.add_0_r. exact Hsum.
  - simpl in Hfit. destruct (x =? -1); simpl.
    + apply IH; assumption.
    + destruct Hfit as (Hstep & Hrest).
      rewrite Z.add_assoc. apply IH; assumption.
Qed.

(** C3: on every history buffer whose entries the code can add up in its
    [int sum] without overflow, [pastHour] leaves in [events] the sum of the
    entries different from -1, an [int], returns true exactly when some entry
    is different from -1 (so false with a sum of 0 when every entry is -1),
    and leaves the record as it found it. *)
Theorem pastHour_sums_valid_buckets (s : nvLightning_t) (events0 : Z) :
  wf s -> sums_fit_int 0 (hist s) ->
  exists (res : bool) (events' : Z),
    pastHour events0 s = Returns ((res, events'), s) /\
    events' = sum_valid (hist s) /\
    in_int events' /\
    (res = true <-> exists v, v ∈ hist s /\ v <> -1) /\
    ((forall v, v ∈ hist s -> v = -1) -> res = false /\ events' = 0).
Proof.
  intros Hwf Hfit.
  exists (any_valid (hist s)), (sum_valid (hist s)).
  split; [|split; [reflexivity|split; [|split]]].
  4: { intros Hall. split; [|apply sum_valid_all_invalid; exact Hall].
       destruct (any_valid (hist s)) eqn:E; [|reflexivity].
       apply any_valid_true in E. destruct E as (v & Hin & Hv).
       elim Hv. apply Hall. exact Hin. }
  2: { apply (sums_fit_int_total (hist s) 0); [unfold in_int; lia | exact Hfit]. }
  - unfold pastHour. unfold bind at 1.
    rewrite (pastHour_loop LIGHTNING_HIST_SIZE 0 false 0 s) by (try exact Hwf; lia).
    reflexivity.
  - apply any_valid_true.
Qed.

(** C4: [lastEvent] returns false exactly when [events] is -1, and then
    leaves the references alone; otherwise it returns true with the stored
    timestamp, event count and distance; either way the record is the one it
    was called on. *)
Theorem lastEvent_reads_snapshot (s : nvLightning_t) (refs : lastEvent_refs) :
  exists (res : bool) (refs' : lastEvent_refs),
    lastEvent refs s = Returns ((res, refs'), s) /\
    (res = false <-> events s = -1) /\
    (res = false -> refs' = refs) /\
    (res = true ->
     refs' = {| ref_timestamp := timestamp s;
                ref_events := events s;
                ref_distance := distance s |}).
Proof.
  unfold lastEvent, bind, get, ret.
  destruct (events s =? -1) eqn:E.
  - apply Z.eqb_eq in E. exists false, refs.
    repeat split; try reflexivity; try discriminate; intros; assumption.
  - apply Z.eqb_neq in E. eexists true, _.
    split; [reflexivity|]. repeat split; try discriminate; try reflexivity.
    intros Hev. contradiction.
Qed.

(** ** Counter handling *)

(** C5: from a record with baseline [P >= 0] (a value of the [int16_t]
    field), a call with the raw counter [P - k], [k > 0] (a raw counter is
    never negative), leaves [P - k] as the baseline and changes neither
    [events], [distance], [timestamp], the history nor [lastUpdate]. *)
Theorem regression_rebaselines (s : nvLightning_t) (k : Z)
    (now distance : Z) (startup : bool) :
  0 <= prevCount s <= 32767 -> 0 < k -> 0 <= prevCount s - k ->
  rebaselined s (prevCount s - k)
              (update now (prevCount s - k) distance startup s).
Proof.
  intros Hbase Hk Hcontract.
  rewrite update_regression by lia.
  exists (set_prevCount (to_int16 (prevCount s - k)) s).
  split; [reflexivity|]. simpl.
  rewrite to_int16_id by lia.
  repeat split; reflexivity.
Qed.

(** C6: from a record whose baseline is -1, a call leaves the raw counter,
    narrowed to 16 bits, as the baseline (the raw counter itself when it
    lies between -32768 and 32767), fills every bucket with the value of
    [hist_init()] and leaves [events], [distance] and [timestamp] alone,
    whatever the arguments are. *)
Theorem cold_start_takes_baseline (s : nvLightning_t)
    (now count distance : Z) (startup : bool) :
  wf s -> prevCount s = -1 ->
  cold_started s (to_int16 count) (update now count distance startup s) /\
  (-32768 <= count <= 32767 ->
   cold_started s count (update now count distance startup s)).
Proof.
  intros Hwf Hcold.
  assert (Hrun : cold_started s (to_int16 count)
                   (update now count distance startup s)).
  { rewrite update_cold_start by assumption.
    eexists. split; [reflexivity|]. simpl. repeat split; reflexivity. }
  split; [exact Hrun|].
  intros Hfits. rewrite to_int16_id in Hrun by exact Hfits. exact Hrun.
Qed.

(** ** Bucket indices *)

Lemma bucket_index_in_range :
  0 < LIGHTNING_UPD_RATE -> clock_in_range ->
  60 <= Z.of_nat LIGHTNING_HIST_SIZE * LIGHTNING_UPD_RATE ->
  forall t, 0 <= bucket_index t < Z.of_nat LIGHTNING_HIST_SIZE.
Proof.
  intros Hrate Hclock Hcover t. unfold bucket_index.
  specialize (Hclock t).
  rewrite Z.quot_div_nonneg by lia.
  split.
  - apply Z.div_pos; lia.
  - apply Z.div_lt_upper_bound; lia.
Qed.

(** C9: when the buckets cover the hour, [HIST_SIZE * UPD_RATE >= 60], the
    bucket index of every timestamp lies in [0, HIST_SIZE), and no call of
    [update] on a record with its [HIST_SIZE] buckets leaves the array: the
    call returns, with the array at its size. *)
Theorem bucket_index_in_bounds :
  0 < LIGHTNING_UPD_RATE -> clock_in_range ->
  60 <= Z.of_nat LIGHTNING_HIST_SIZE * LIGHTNING_UPD_RATE ->
  (forall t, 0 <= bucket_index t < Z.of_nat LIGHTNING_HIST_SIZE) /\
  (forall (now count distance : Z) (startup : bool) (s : nvLightning_t),
     wf s ->
     exists s', update now count distance startup s = Returns (tt, s') /\ wf s').
Proof.
  intros Hrate Hclock Hcover.
  pose proof (bucket_index_in_range Hrate Hclock Hcover) as Hidx.
  split; [exact Hidx|].
  intros now count distance startup s Hwf.
  destruct (update_keeps_lastUpdate now count distance startup s Hrate Hidx Hwf)
    as (s' & Hrun & Hwf' & _).
  exists s'. split; assumption.
Qed.

(** ** The boundaries between two updates *)

Lemma gap_buckets_spec (last now : Z) (i : nat) :
  0 < LIGHTNING_UPD_RATE ->
  i ∈ gap_buckets last now <->
  exists k, 1 <= k /\ last + k * period < now /\ bucket (last + k * period) = i.
Proof.
  intros Hrate.
  assert (Hp : 0 < period) by (unfold period; lia).
  unfold gap_buckets, gap_count. rewrite list_elem_of_fmap. split.
  - intros (k & -> & Hk). apply elem_of_seq in Hk.
    exists (Z.of_nat k). split; [lia|]. split; [|reflexivity].
    pose proof (Z.mul_div_le (now - last - 1) period Hp) as Hle.
    assert (Z.of_nat k <= (now - last - 1) / period) by lia.
    nia.
  - intros (k & Hk & Hlt & <-).
    exists (Z.to_nat k). rewrite Z2Nat.id by lia. split; [reflexivity|].
    apply elem_of_seq.
    assert (k <= (now - last - 1) / period)
      by (apply Z.div_le_lower_bound; lia).
    lia.
Qed.

Lemma gap_count_exact (last : Z) (n : nat) :
  0 < LIGHTNING_UPD_RATE -> (1 <= n)%nat ->
  gap_count last (last + Z.of_nat n * period) = (n - 1)%nat.
Proof.
  intros Hrate Hn.
  assert (Hp : 0 < period) by (unfold period; lia).
  unfold gap_count.
  replace ((last + Z.of_nat n * period - last - 1) / period)
    with (Z.of_nat n - 1); [lia|].
  apply (Z.div_unique _ _ _ (period - 1)); lia.
Qed.

(** ** A regular clock and buckets that cover the hour exactly *)

Lemma tm_min_shift :
  clock_in_range -> clock_regular ->
  forall j, 0 <= j -> forall t, tm_min (t + j * 60) = (tm_min t + j) mod 60.
Proof.
  intros Hclock Hreg j Hj. pattern j. apply natlike_ind; [| |exact Hj].
  - intros t. pose proof (Hclock t) as Hm.
    rewrite Z.add_0_r, Z.mod_small by lia. f_equal. lia.
  - intros x Hx IH t.
    replace (t + Z.succ x * 60) with (t + x * 60 + 60) by lia.
    rewrite Hreg, IH, Zplus_mod_idemp_l. f_equal. lia.
Qed.

Lemma bucket_index_shift :
  0 < LIGHTNING_UPD_RATE ->
  Z.of_nat LIGHTNING_HIST_SIZE * LIGHTNING_UPD_RATE = 60 ->
  clock_in_range -> clock_regular ->
  forall k, 0 <= k -> forall t,
    bucket_index (t + k * period)
    = (bucket_index t + k) mod Z.of_nat LIGHTNING_HIST_SIZE.
Proof.
  intros Hrate Hexact Hclock Hreg k Hk t. unfold bucket_index, period.
  assert (Hsize : 0 < Z.of_nat LIGHTNING_HIST_SIZE) by nia.
  replace (t + k * (LIGHTNING_UPD_RATE * 60))
    with (t + (k * LIGHTNING_UPD_RATE) * 60) by lia.
  rewrite tm_min_shift by (try assumption; nia).
  pose proof (Hclock t) as Hm.
  rewrite !Z.quot_div_nonneg; try lia;
    [| apply Z.mod_pos_bound; lia].
  replace 60 with (LIGHTNING_UPD_RATE * Z.of_nat LIGHTNING_HIST_SIZE) by lia.
  rewrite Z.rem_mul_r by lia.
  rewrite Z.div_add by lia.
  symmetry.
  apply (Z.div_unique _ _ _
           ((tm_min t + k * LIGHTNING_UPD_RATE) mod LIGHTNING_UPD_RATE));
    [left; apply Z.mod_pos_bound; lia | lia].
Qed.

(** Within one round of the buckets two different shifts land apart. *)
Lemma shifted_buckets_apart (b j k : Z) :
  0 < Z.of_nat LIGHTNING_HIST_SIZE ->
  0 <= j < k -> k - j < Z.of_nat LIGHTNING_HIST_SIZE ->
  (b + j) mod Z.of_nat LIGHTNING_HIST_SIZE
  <> (b + k) mod Z.of_nat LIGHTNING_HIST_SIZE.
Proof.
  intros Hsize Hjk Hclose Heq.
  assert (Hnz : Z.of_nat LIGHTNING_HIST_SIZE <> 0) by (clear - Hsize; lia).
  pose proof (Z.div_mod (b + j) (Z.of_nat LIGHTNING_HIST_SIZE) Hnz) as Hj.
  pose proof (Z.div_mod (b + k) (Z.of_nat LIGHTNING_HIST_SIZE) Hnz) as Hk.
  rewrite Heq in Hj.
  assert (Hdiff : k - j = Z.of_nat LIGHTNING_HIST_SIZE *
            ((b + k) / Z.of_nat LIGHTNING_HIST_SIZE
             - (b + j) / Z.of_nat LIGHTNING_HIST_SIZE)) by lia.
  revert Hdiff.
  generalize ((b + k) / Z.of_nat LIGHTNING_HIST_SIZE
              - (b + j) / Z.of_nat LIGHTNING_HIST_SIZE).
  clear - Hsize Hjk Hclose. intros q Hdiff.
  destruct (Z_le_gt_dec q 0); nia.
Qed.

(** ** History accounting *)

Lemma window_is_a_round : window = Z.of_nat LIGHTNING_HIST_SIZE * period.
Proof. unfold window, period. lia. Qed.

Lemma bucket_eq (t u : Z) :
  (forall t, 0 <= bucket_index t < Z.of_nat LIGHTNING_HIST_SIZE) ->
  bucket t = bucket u -> bucket_index t = bucket_index u.
Proof.
  intros Hidx Heq. unfold bucket in Heq.
  apply Z2Nat.inj in Heq; [exact Heq | apply Hidx | apply Hidx].
Qed.

(** C8: with buckets that cover the hour exactly and a regular clock, an
    update exactly [n] bucket periods after [lastUpdate] ([1 <= n <
    HIST_SIZE], no cold start, no regression) sets to -1 the [n - 1] buckets
    of the boundaries in between, which are distinct and differ from the
    bucket of the new timestamp; that bucket keeps the entry written for
    this call, and every other bucket keeps its value. *)
Theorem gap_invalidation (s : nvLightning_t) (n : nat)
    (count distance : Z) (startup : bool) :
  0 < LIGHTNING_UPD_RATE ->
  Z.of_nat LIGHTNING_HIST_SIZE * LIGHTNING_UPD_RATE = 60 ->
  clock_in_range -> clock_regular ->
  wf s -> prevCount s <> -1 -> prevCount s <= count ->
  (1 <= n)%nat -> (n < LIGHTNING_HIST_SIZE)%nat ->
  let now := lastUpdate s + Z.of_nat n * period in
  exists s',
    update now count distance startup s = Returns (tt, s') /\
    length (gap_buckets (lastUpdate s) now) = (n - 1)%nat /\
    invalidates (gap_buckets (lastUpdate s) now) (bucket now) (hist s) (hist s') /\
    hist s' !! bucket now = Some (count - prevCount s').
Proof.
  intros Hrate Hexact Hclock Hreg Hwf Hwarm Hgrow Hn1 HnH now.
  assert (Hidx : forall t, 0 <= bucket_index t < Z.of_nat LIGHTNING_HIST_SIZE)
    by (apply bucket_index_in_range; try assumption; lia).
  assert (Hp : 0 < period) by (unfold period; lia).
  assert (Hdelta : 0 <= now - lastUpdate s) by (unfold now; nia).
  assert (Hsize : 0 < Z.of_nat LIGHTNING_HIST_SIZE) by lia.
  assert (Hshift : forall k, 0 <= k ->
            bucket_index (lastUpdate s + k * period)
            = (bucket_index (lastUpdate s) + k) mod Z.of_nat LIGHTNING_HIST_SIZE)
    by (intros k Hk; apply bucket_index_shift; assumption).
  (* the boundaries before [now] are those of the shifts below [n] *)
  assert (Hbefore : forall k, 1 <= k -> lastUpdate s + k * period < now ->
            k < Z.of_nat n) by (unfold now; intros k Hk Hlt; nia).
  assert (Hcur : forall k, 1 <= k -> lastUpdate s + k * period < now ->
            bucket (lastUpdate s + k * period) <> bucket now).
  { intros k Hk Hlt Heq. apply bucket_eq in Heq; [|exact Hidx].
    unfold now in Heq. rewrite !Hshift in Heq by lia.
    specialize (Hbefore k Hk Hlt).
    revert Heq. apply shifted_buckets_apart; lia. }
  destruct (update_history now count distance startup s
              Hrate Hidx Hwf Hwarm Hgrow Hdelta)
    as (h' & Hrun & Hlen & Hhit & Hmiss & _).
  assert (Hkeep : after_expiry now s = hist s).
  { unfold after_expiry. rewrite Z.geb_leb.
    destruct (window <=? now - lastUpdate s) eqn:E; [|reflexivity].
    apply Z.leb_le in E. rewrite window_is_a_round in E. unfold now in E. nia. }
  rewrite Hkeep in Hmiss.
  eexists. split; [exact Hrun|]. simpl.
  split; [|split].
  - unfold gap_buckets. rewrite length_fmap, length_seq.
    apply gap_count_exact; assumption.
  - unfold invalidates. split; [|split; [|split]].
    + unfold gap_buckets. apply NoDup_fmap_2_strong; [|apply NoDup_seq].
      unfold now. rewrite gap_count_exact by assumption.
      intros x y Hx Hy Heq.
      apply elem_of_seq in Hx. apply elem_of_seq in Hy.
      apply bucket_eq in Heq; [|exact Hidx].
      rewrite !Hshift in Heq by lia.
      destruct (Nat.lt_total x y) as [Hlt|[Heq'|Hgt]]; [|exact Heq'|].
      * exfalso. revert Heq. apply shifted_buckets_apart; lia.
      * exfalso. symmetry in Heq. revert Heq.
        apply shifted_buckets_apart; lia.
    + intros Hin. apply gap_buckets_spec in Hin; [|exact Hrate].
      destruct Hin as (k & Hk & Hlt & Heq).
      exact (Hcur k Hk Hlt Heq).
    + intros i Hin. apply gap_buckets_spec in Hin; [|exact Hrate].
      destruct Hin as (k & Hk & Hlt & <-).
      apply Hhit; assumption.
    + intros i Hout Hne. rewrite Hmiss.
      * apply list_lookup_insert_ne. congruence.
      * intros k Hk Hlt Heq. apply Hout.
        apply gap_buckets_spec; [exact Hrate|].
        exists k. split; [exact Hk|]. split; [exact Hlt | exact Heq].
  - rewrite (Hmiss (bucket now) Hcur).
    apply list_lookup_insert_eq.
    rewrite Hwf. unfold bucket. specialize (Hidx now). lia.
Qed.

(** With exact cover and a regular clock, a walk over a full window or more
    passes every bucket but, at most, the current one. *)
Lemma expired_walk_passes_all (last now : Z) (i : nat) :
  0 < LIGHTNING_UPD_RATE ->
  Z.of_nat LIGHTNING_HIST_SIZE * LIGHTNING_UPD_RATE = 60 ->
  clock_in_range -> clock_regular ->
  window <= now - last ->
  (i < LIGHTNING_HIST_SIZE)%nat -> i <> bucket now ->
  i ∈ gap_buckets last now.
Proof.
  intros Hrate Hexact Hclock Hreg Hexp Hi Hcur.
  assert (Hidx : forall t, 0 <= bucket_index t < Z.of_nat LIGHTNING_HIST_SIZE)
    by (apply bucket_index_in_range; try assumption; lia).
  assert (Hp : 0 < period) by (unfold period; lia).
  assert (Hsize : 0 < Z.of_nat LIGHTNING_HIST_SIZE) by lia.
  rewrite window_is_a_round in Hexp.
  pose proof (Hidx last) as Hb0.
  apply gap_buckets_spec; [exact Hrate|].
  assert (Hto : forall k, 0 <= k ->
            (bucket_index last + k) mod Z.of_nat LIGHTNING_HIST_SIZE = Z.of_nat i ->
            bucket (last + k * period) = i).
  { intros k Hk Hmod. unfold bucket.
    rewrite bucket_index_shift by assumption. rewrite Hmod. apply Nat2Z.id. }
  destruct (Z.lt_trichotomy (bucket_index last) (Z.of_nat i)) as [Hlt|[Heq|Hgt]].
  - exists (Z.of_nat i - bucket_index last).
    split; [lia|]. split; [nia|].
    apply Hto; [lia|].
    replace (bucket_index last + (Z.of_nat i - bucket_index last))
      with (Z.of_nat i) by lia.
    apply Z.mod_small. lia.
  - exists (Z.of_nat LIGHTNING_HIST_SIZE).
    assert (Hround : bucket (last + Z.of_nat LIGHTNING_HIST_SIZE * period) = i).
    { apply Hto; [lia|]. rewrite <- Heq.
      symmetry. apply (Z.mod_unique _ _ 1); lia. }
    split; [lia|]. split; [|exact Hround].
    destruct (Z.eq_dec (now - last) (Z.of_nat LIGHTNING_HIST_SIZE * period))
      as [Hsame|Hmore]; [|lia].
    exfalso. apply Hcur. rewrite <- Hround. f_equal. lia.
  - exists (Z.of_nat i - bucket_index last + Z.of_nat LIGHTNING_HIST_SIZE).
    split; [lia|]. split; [nia|].
    apply Hto; [lia|].
    symmetry. apply (Z.mod_unique _ _ 1); lia.
Qed.

(** C7: when a full window or more has elapsed since [lastUpdate] (no cold
    start, no regression), every bucket other than the current one holds -1
    after the call if the invalidation walk passed it and the fill value of
    [hist_init()] otherwise; with buckets that cover the hour exactly and a
    regular clock the walk passes all of them, so that each holds -1. *)
Theorem window_expiry_history (s : nvLightning_t)
    (now count distance : Z) (startup : bool) :
  0 < LIGHTNING_UPD_RATE -> clock_in_range ->
  60 <= Z.of_nat LIGHTNING_HIST_SIZE * LIGHTNING_UPD_RATE ->
  wf s -> prevCount s <> -1 -> prevCount s <= count ->
  window <= now - lastUpdate s ->
  exists s',
    update now count distance startup s = Returns (tt, s') /\
    (forall i, (i < LIGHTNING_HIST_SIZE)%nat -> i <> bucket now ->
       hist s' !! i
       = Some (if decide (i ∈ gap_buckets (lastUpdate s) now)
               then -1 else fill_value)) /\
    (Z.of_nat LIGHTNING_HIST_SIZE * LIGHTNING_UPD_RATE = 60 ->
     clock_regular ->
     forall i, (i < LIGHTNING_HIST_SIZE)%nat -> i <> bucket now ->
       hist s' !! i = Some (-1)).
Proof.
  intros Hrate Hclock Hcover Hwf Hwarm Hgrow Hexp.
  pose proof (bucket_index_in_range Hrate Hclock Hcover) as Hidx.
  assert (Hdelta : 0 <= now - lastUpdate s)
    by (rewrite window_is_a_round in Hexp; unfold period in Hexp; nia).
  destruct (update_history now count distance startup s
              Hrate Hidx Hwf Hwarm Hgrow Hdelta)
    as (h' & Hrun & Hlen & Hhit & Hmiss & _).
  assert (Hreset : after_expiry now s = replicate LIGHTNING_HIST_SIZE fill_value).
  { unfold after_expiry. rewrite Z.geb_leb.
    destruct (window <=? now - lastUpdate s) eqn:E; [reflexivity|].
    apply Z.leb_gt in E. lia. }
  rewrite Hreset in Hmiss.
  assert (Hall : forall i, (i < LIGHTNING_HIST_SIZE)%nat -> i <> bucket now ->
            h' !! i = Some (if decide (i ∈ gap_buckets (lastUpdate s) now)
                            then -1 else fill_value)).
  { intros i Hi Hne. destruct (decide (i ∈ gap_buckets (lastUpdate s) now)) as [Hin|Hout].
    - apply gap_buckets_spec in Hin; [|exact Hrate].
      destruct Hin as (k & Hk & Hlt & <-). apply Hhit; assumption.
    - rewrite Hmiss.
      + rewrite list_lookup_insert_ne by congruence.
        apply lookup_replicate_2. exact Hi.
      + intros k Hk Hlt Heq. apply Hout.
        apply gap_buckets_spec; [exact Hrate|].
        exists k. split; [exact Hk|]. split; [exact Hlt | exact Heq]. }
  eexists. split; [exact Hrun|]. simpl.
  split; [exact Hall|].
  intros Hexact Hreg i Hi Hne.
  rewrite (Hall i Hi Hne).
  rewrite decide_True; [reflexivity|].
  apply expired_walk_passes_all; assumption.
Qed.

(** Whatever the counter gained, a call that reaches the history part leaves
    0 or -1 in the bucket of its timestamp, never the gain. *)
Lemma current_bucket_after_update (now count distance : Z) (startup : bool)
    (s : nvLightning_t) :
  0 < LIGHTNING_UPD_RATE ->
  (forall t, 0 <= bucket_index t < Z.of_nat LIGHTNING_HIST_SIZE) ->
  wf s -> prevCount s <> -1 -> prevCount s <= count ->
  -32768 <= count <= 32767 ->
  0 <= now - lastUpdate s ->
  exists s',
    update now count distance startup s = Returns (tt, s') /\
    (hist s' !! bucket now = Some 0 \/ hist s' !! bucket now = Some (-1)).
Proof.
  intros Hrate Hidx Hwf Hwarm Hgrow Hfits Hdelta.
  destruct (update_history now count distance startup s
              Hrate Hidx Hwf Hwarm Hgrow Hdelta)
    as (h' & Hrun & Hlen & _ & _ & Hany).
  eexists. split; [exact Hrun|]. simpl.
  destruct (Hany (bucket now)) as [Hinv|Hkept]; [right; exact Hinv|].
  left. rewrite Hkept.
  rewrite current_bucket_value by assumption.
  apply list_lookup_insert_eq.
  unfold after_expiry. specialize (Hidx now).
  destruct (_ >=? _); [rewrite length_replicate | rewrite Hwf];
    unfold bucket; lia.
Qed.

(** ** First boot *)

(** After [reset()] no event is on file. *)
Lemma reset_then_lastEvent (s : nvLightning_t) (refs : lastEvent_refs) :
  exists s',
    reset s = Returns (tt, s') /\ events s' = -1 /\
    lastEvent refs s' = Returns ((false, refs), s').
Proof. eexists. split; [reflexivity|]. split; reflexivity. Qed.

(** C10: the statically initialised record has the baseline sentinel
    [prevCount = -1] but [events = 0], so that [lastEvent] on it returns true
    and hands out an event of zero strikes at time 0. *)
Theorem first_boot_reports_an_event (refs : lastEvent_refs) :
  prevCount nvLightning = -1 /\
  events nvLightning = 0 /\
  lastEvent refs nvLightning
  = Returns ((true, {| ref_timestamp := 0; ref_events := 0; ref_distance := 0 |}),
             nvLightning).
Proof. repeat split. Qed.

End Proofs.

(** ** The engine on concrete records *)

(** C1: on six buckets of ten minutes, the call [update(600, 8, 3, false)] on
    a record with baseline 5 and [lastUpdate = 0] runs to the end of
    [update], and [lastUpdate] is still 0 afterwards, not 600. *)
Theorem update_leaves_lastUpdate_stale :
  exists s',
    update (plat:=six_by_ten) 600 8 3 false baseline_5 = Returns (tt, s') /\
    s' = {| lastUpdate := 0; prevCount := 8; events := 3; distance := 3;
            timestamp := 600; hist := [1; 0; 3; 4; 5; 6] |} /\
    lastUpdate s' <> 600.
Proof.
  eexists. split; [vm_compute; reflexivity|].
  split; [reflexivity | discriminate].
Qed.

(** C2: the same call, with the counter grown by 3 after 600 seconds, takes
    the event snapshot ([events = 3], distance and timestamp of the call) but
    stores 0, not 3, in the bucket of the timestamp. *)
Theorem update_stores_zero_delta :
  exists s',
    update (plat:=six_by_ten) 600 (5 + 3) 3 false baseline_5 = Returns (tt, s') /\
    events s' = 3 /\ distance s' = 3 /\ timestamp s' = 600 /\
    hist s' !! bucket (plat:=six_by_ten) 600 = Some 0 /\
    hist s' !! bucket (plat:=six_by_ten) 600 <> Some 3.
Proof.
  eexists. split; [vm_compute; reflexivity|].
  repeat split. discriminate.
Qed.

(** When the timestamp is not a whole number of periods after [lastUpdate],
    the walk reaches the bucket of the timestamp and the entry written for the
    call is lost to -1. *)
Lemma walk_can_hit_current_bucket :
  exists s',
    update (plat:=six_by_ten) 900 8 3 false baseline_5 = Returns (tt, s') /\
    hist s' !! bucket (plat:=six_by_ten) 900 = Some (-1).
Proof. eexists. split; [vm_compute; reflexivity | reflexivity]. Qed.

(** ** Where the claims as written fail *)

(** C6, as written: from the all-sentinel record a raw counter of 40000
    leaves -25536 as the baseline. *)
Lemma cold_start_as_stated_fails :
  ~ cold_start_as_stated (plat:=six_by_ten) all_sentinel 600 40000 0 false.
Proof.
  intros Hclaim.
  destruct Hclaim as (s' & Hrun & Hprev & _); [reflexivity | reflexivity |].
  vm_compute in Hrun. injection Hrun as <-.
  vm_compute in Hprev. discriminate Hprev.
Qed.

(** C7, as written: one hour after [lastUpdate] the buckets other than the
    current one hold -1, whether [hist_init()] fills with 0 or with the
    [uint16_t] image of -1. *)
Lemma expiry_as_stated_fails :
  ~ expiry_as_stated (plat:=six_by_ten) baseline_5 3600 5 0 false /\
  ~ expiry_as_stated (plat:=six_by_ten_minus_one) baseline_5 3600 5 0 false.
Proof.
  split; intros Hclaim.
  - destruct Hclaim as (s' & Hrun & Hfill);
      [reflexivity | simpl; lia | simpl; lia | vm_compute; discriminate |].
    vm_compute in Hrun. injection Hrun as <-.
    specialize (Hfill 1%nat (-1) ltac:(vm_compute; discriminate) eq_refl).
    vm_compute in Hfill. discriminate Hfill.
  - destruct Hclaim as (s' & Hrun & Hfill);
      [reflexivity | simpl; lia | simpl; lia | vm_compute; discriminate |].
    vm_compute in Hrun. injection Hrun as <-.
    specialize (Hfill 1%nat (-1) ltac:(vm_compute; discriminate) eq_refl).
    vm_compute in Hfill. discriminate Hfill.
Qed.

(** C8, as written: one period after [lastUpdate] ([n = 1]) the walk has no
    boundary to visit and no bucket reads -1. *)
Lemma gap_as_stated_fails :
  ~ gap_as_stated (plat:=six_by_ten) baseline_5 1 5 0 false.
Proof.
  intros Hclaim.
  destruct Hclaim as (s' & Hrun & gap & Hlen & _ & _ & Hinv & _);
    [reflexivity | simpl; lia | simpl; lia | lia | simpl; lia |].
  vm_compute in Hrun. injection Hrun as <-.
  destruct gap as [|i [|? ?]]; try discriminate Hlen.
  specialize (Hinv i ltac:(apply list_elem_of_here)).
  do 6 (destruct i as [|i]; [discriminate Hinv|]).
  discriminate Hinv.
Qed.

(** C9, as written: five buckets of ten minutes satisfy
    [HIST_SIZE * UPD_RATE <= 60], and minute 55 has bucket index 5. *)
Lemma index_bound_as_stated_fails :
  ~ index_bound_as_stated (plat:=five_by_ten).
Proof.
  intros Hclaim.
  assert (Hidx : 0 <= bucket_index (plat:=five_by_ten) 3300 < 5).
  { apply Hclaim; [simpl; lia | exact utc_min_in_range | simpl; lia]. }
  vm_compute in Hidx. destruct Hidx as [_ Hidx]. discriminate Hidx.
Qed.

(** With that platform the write itself leaves the array. *)
Lemma five_by_ten_out_of_bounds :
  update (plat:=five_by_ten) 3300 5 0 false
         {| lastUpdate := 3000; prevCount := 5; events := -1; distance := 0;
            timestamp := 0; hist := [0; 0; 0; 0; 0] |}
  = OutOfBounds.
Proof. vm_compute. reflexivity. Qed.

(** ** The theorems at work *)

Ltac concrete :=
  first [ exact utc_min_in_range | exact utc_min_regular | reflexivity
        | simpl; lia | vm_compute; discriminate ].

Ltac concrete_all :=
  repeat match goal with |- _ /\ _ => split end; concrete.

Lemma pastHour_sums_valid_buckets_witness :
  (wf (plat:=six_by_ten) with_event /\ sums_fit_int 0 (hist with_event)) /\
  exists (res : bool) (events' : Z),
    pastHour (plat:=six_by_ten) 0 with_event
    = Returns ((res, events'), with_event) /\
    events' = sum_valid (hist with_event) /\
    in_int events' /\
    (res = true <-> exists v, v ∈ hist with_event /\ v <> -1) /\
    ((forall v, v ∈ hist with_event -> v = -1) -> res = false /\ events' = 0).
Proof.
  split; [split; [reflexivity | simpl; unfold in_int; lia]|].
  apply (pastHour_sums_valid_buckets (plat:=six_by_ten) with_event 0);
    [reflexivity | simpl; unfold in_int; lia].
Defined.

Lemma regression_rebaselines_witness :
  (0 <= prevCount baseline_5 <= 32767 /\ 0 < 2 /\
   0 <= prevCount baseline_5 - 2) /\
  rebaselined baseline_5 (prevCount baseline_5 - 2)
    (update (plat:=six_by_ten) 600 (prevCount baseline_5 - 2) 0 false baseline_5).
Proof.
  split; [concrete_all|].
  apply (regression_rebaselines (plat:=six_by_ten) baseline_5 2 600 0 false);
    concrete.
Defined.

Lemma cold_start_takes_baseline_witness :
  (wf (plat:=six_by_ten) all_sentinel /\ prevCount all_sentinel = -1) /\
  cold_started (plat:=six_by_ten) all_sentinel (to_int16 5)
    (update (plat:=six_by_ten) 600 5 2 false all_sentinel) /\
  (-32768 <= 5 <= 32767 ->
   cold_started (plat:=six_by_ten) all_sentinel 5
     (update (plat:=six_by_ten) 600 5 2 false all_sentinel)).
Proof.
  split; [concrete_all|].
  apply (cold_start_takes_baseline (plat:=six_by_ten) all_sentinel 600 5 2 false);
    concrete.
Defined.

Lemma window_expiry_history_witness :
  (0 < LIGHTNING_UPD_RATE (Platform:=six_by_ten) /\
   clock_in_range (plat:=six_by_ten) /\
   60 <= Z.of_nat (LIGHTNING_HIST_SIZE (Platform:=six_by_ten))
         * LIGHTNING_UPD_RATE (Platform:=six_by_ten) /\
   wf (plat:=six_by_ten) baseline_5 /\
   prevCount baseline_5 <> -1 /\ prevCount baseline_5 <= 5 /\
   window (plat:=six_by_ten) <= 3600 - lastUpdate baseline_5) /\
  exists s',
    update (plat:=six_by_ten) 3600 5 0 false baseline_5 = Returns (tt, s') /\
    (forall i, (i < 6)%nat -> i <> bucket (plat:=six_by_ten) 3600 ->
       hist s' !! i
       = Some (if decide (i ∈ gap_buckets (plat:=six_by_ten) 0 3600)
               then -1 else fill_value (plat:=six_by_ten))) /\
    (Z.of_nat 6 * 10 = 60 ->
     clock_regular (plat:=six_by_ten) ->
     forall i, (i < 6)%nat -> i <> bucket (plat:=six_by_ten) 3600 ->
       hist s' !! i = Some (-1)).
Proof.
  split; [concrete_all|].
  apply (window_expiry_history (plat:=six_by_ten) baseline_5 3600 5 0 false);
    concrete.
Defined.

Lemma gap_invalidation_witness :
  (0 < LIGHTNING_UPD_RATE (Platform:=six_by_ten) /\
   Z.of_nat (LIGHTNING_HIST_SIZE (Platform:=six_by_ten))
   * LIGHTNING_UPD_RATE (Platform:=six_by_ten) = 60 /\
   clock_in_range (plat:=six_by_ten) /\ clock_regular (plat:=six_by_ten) /\
   wf (plat:=six_by_ten) baseline_5 /\
   prevCount baseline_5 <> -1 /\ prevCount baseline_5 <= 5 /\
   (1 <= 3)%nat /\ (3 < LIGHTNING_HIST_SIZE (Platform:=six_by_ten))%nat) /\
  exists s',
    update (plat:=six_by_ten)
           (lastUpdate baseline_5 + Z.of_nat 3 * period (plat:=six_by_ten))
           5 0 false baseline_5
    = Returns (tt, s') /\
    length (gap_buckets (plat:=six_by_ten) (lastUpdate baseline_5)
              (lastUpdate baseline_5 + Z.of_nat 3 * period (plat:=six_by_ten)))
    = (3 - 1)%nat /\
    invalidates
      (gap_buckets (plat:=six_by_ten) (lastUpdate baseline_5)
         (lastUpdate baseline_5 + Z.of_nat 3 * period (plat:=six_by_ten)))
      (bucket (plat:=six_by_ten)
         (lastUpdate baseline_5 + Z.of_nat 3 * period (plat:=six_by_ten)))
      (hist baseline_5) (hist s') /\
    hist s' !! bucket (plat:=six_by_ten)
                 (lastUpdate baseline_5 + Z.of_nat 3 * period (plat:=six_by_ten))
    = Some (5 - prevCount s').
Proof.
  split; [concrete_all|].
  apply (gap_invalidation (plat:=six_by_ten) baseline_5 3 5 0 false);
    concrete.
Defined.

Lemma bucket_index_in_bounds_witness :
  (0 < LIGHTNING_UPD_RATE (Platform:=six_by_ten) /\
   clock_in_range (plat:=six_by_ten) /\
   60 <= Z.of_nat (LIGHTNING_HIST_SIZE (Platform:=six_by_ten))
         * LIGHTNING_UPD_RATE (Platform:=six_by_ten)) /\
  (forall t, 0 <= bucket_index (plat:=six_by_ten) t < 6) /\
  (forall (now count distance : Z) (startup : bool) (s : nvLightning_t),
     wf (plat:=six_by_ten) s ->
     exists s',
       update (plat:=six_by_ten) now count distance startup s = Returns (tt, s') /\
       wf (plat:=six_by_ten) s').
Proof.
  split; [concrete_all|].
  apply (bucket_index_in_bounds (plat:=six_by_ten)); concrete.
Defined.

(** ** Further properties of the engine *)

Section Engine.
Context {plat : Platform}.

Lemma covers_in_bounds :
  covers_the_hour ->
  0 < LIGHTNING_UPD_RATE /\
  forall t, 0 <= bucket_index t < Z.of_nat LIGHTNING_HIST_SIZE.
Proof.
  intros (Hrate & Hclock & Hcover).
  split; [exact Hrate | exact (bucket_index_in_range Hrate Hclock Hcover)].
Qed.

Lemma pastHour_returns (events0 : Z) (s : nvLightning_t) :
  wf s ->
  pastHour events0 s
  = Returns ((any_valid (hist s), sum_valid (hist s)), s).
Proof.
  intros Hwf. unfold pastHour. unfold bind at 1.
  rewrite (pastHour_loop LIGHTNING_HIST_SIZE 0 false 0 s) by (try exact Hwf; lia).
  reflexivity.
Qed.

Lemma sum_valid_replicate (n : nat) (v : Z) :
  v <> -1 -> sum_valid (replicate n v) = Z.of_nat n * v.
Proof.
  intros Hv. apply Z.eqb_neq in Hv. unfold sum_valid.
  induction n as [|n IH]; [reflexivity|].
  simpl replicate. simpl List.filter. rewrite Hv. simpl negb. cbv iota.
  simpl fold_right. rewrite IH. lia.
Qed.

Lemma any_valid_replicate (n : nat) (v : Z) :
  v <> -1 -> any_valid (replicate n v) = negb (n =? 0)%nat.
Proof.
  intros Hv. apply Z.eqb_neq in Hv. unfold any_valid.
  destruct n as [|n]; [reflexivity|].
  simpl. rewrite Hv. reflexivity.
Qed.

Lemma sum_valid_nonneg (h : list Z) :
  (forall v, v ∈ h -> -1 <= v) -> 0 <= sum_valid h.
Proof.
  unfold sum_valid. induction h as [|x h IH]; intros Hall; simpl; [lia|].
  assert (Hx : -1 <= x) by (apply Hall; apply list_elem_of_here).
  assert (Hh : 0 <= fold_right Z.add 0 (List.filter (fun v => negb (v =? -1)) h)).
  { apply IH. intros v Hv. apply Hall. apply list_elem_of_further. exact Hv. }
  destruct (x =? -1) eqn:E; simpl; [exact Hh|].
  apply Z.eqb_neq in E. lia.
Qed.

Lemma after_counter_consistent (now count distance : Z) (s : nvLightning_t) :
  consistent s -> consistent (after_counter now count distance s).
Proof.
  intros (Hwf & Hprev & Hev & Hlast & Hhist). unfold after_counter.
  destruct (count >? prevCount s);
    [|exact (conj Hwf (conj Hprev (conj Hev (conj Hlast Hhist))))].
  unfold consistent, wf, in_int16. simpl.
  split; [exact Hwf|].
  split; [apply to_int16_range|].
  split; [apply to_int16_range|].
  split; [exact Hlast | exact Hhist].
Qed.

(** For a raw counter from which an [int16_t] can be subtracted within
    [int], the entry of the current bucket is a non-negative [int]. *)
Lemma current_bucket_value_nonneg (now count distance : Z) (s : nvLightning_t) :
  in_int16 (prevCount s) -> prevCount s <= count -> count <= 2147450879 ->
  0 <= count - prevCount (after_counter now count distance s) <= 2147483647.
Proof.
  intros Hprev Hgrow Hcount. unfold in_int16 in Hprev. unfold after_counter.
  destruct (count >? prevCount s) eqn:E; simpl; [|lia].
  pose proof (to_int16_range count) as Hr.
  unfold to_int16 in *.
  pose proof (Z.mod_le (count + 32768) 65536 ltac:(lia) ltac:(lia)). lia.
Qed.

Lemma update_consistent (r : report) (s : nvLightning_t) :
  covers_the_hour -> consistent s -> plain_report r ->
  exists s',
    update (r_timestamp r) (r_count r) (r_distance r) (r_startup r) s
    = Returns (tt, s') /\
    consistent s' /\ lastUpdate s' = lastUpdate s.
Proof.
  intros Hplat Hcons ((Hcount_lo & Hcount_hi) & _ & _).
  destruct r as [now count distance startup]. simpl in *.
  destruct (covers_in_bounds Hplat) as (Hrate & Hidx).
  pose proof Hcons as (Hwf & Hprev & Hev & Hlast & Hhist).
  pose proof (fill_value_not_sentinel) as (Hfill & _).
  destruct (Z.eq_dec (prevCount s) (-1)) as [Hcold|Hwarm].
  { rewrite update_cold_start by assumption.
    eexists; split; [reflexivity|]. split; [|reflexivity].
    unfold consistent, wf, in_int16. simpl.
    split; [apply length_replicate|].
    split; [apply to_int16_range|].
    split; [exact Hev|]. split; [exact Hlast|].
    intros v Hv. apply elem_of_replicate in Hv. destruct Hv as [-> _]. lia. }
  destruct (Z_lt_le_dec count (prevCount s)) as [Hless|Hgrow].
  { rewrite update_regression by assumption.
    eexists; split; [reflexivity|]. split; [|reflexivity].
    unfold consistent, wf, in_int16. simpl.
    split; [exact Hwf|]. split; [apply to_int16_range|].
    split; [exact Hev|]. split; [exact Hlast | exact Hhist]. }
  pose proof (after_counter_consistent now count distance s Hcons)
    as (Hwfm & Hprevm & Hevm & Hlastm & Hhistm).
  destruct (Z_lt_le_dec (now - lastUpdate s) 0) as [Hneg|Hpos].
  { rewrite update_counter_part by assumption. cbv zeta.
    rewrite after_counter_lastUpdate.
    destruct (now - lastUpdate s <? 0) eqn:E; [|lia].
    eexists; split; [reflexivity|].
    split; [|apply after_counter_lastUpdate].
    exact (conj Hwfm (conj Hprevm (conj Hevm (conj Hlastm Hhistm)))). }
  destruct (update_history now count distance startup s
              Hrate Hidx Hwf Hwarm Hgrow Hpos)
    as (h' & Hrun & Hlen & _ & _ & Hany).
  rewrite Hrun. eexists; split; [reflexivity|].
  split; [|simpl; apply after_counter_lastUpdate].
  unfold consistent, wf. simpl.
  split; [exact Hlen|]. split; [exact Hprevm|]. split; [exact Hevm|].
  split; [exact Hlastm|].
  intros v Hv. apply list_elem_of_lookup in Hv. destruct Hv as (i & Hi).
  destruct (Hany i) as [Hinv|Hkept]; [rewrite Hinv in Hi; injection Hi; lia|].
  rewrite Hkept in Hi. apply list_lookup_insert_Some in Hi.
  destruct Hi as [(_ & <- & _)|(_ & Hi)].
  - pose proof (current_bucket_value_nonneg now count distance s
                  Hprev Hgrow Hcount_hi) as Hentry.
    lia.
  - unfold after_expiry in Hi. destruct (_ >=? _).
    + apply lookup_replicate in Hi. destruct Hi as [-> _]. lia.
    + apply Hhist. apply list_elem_of_lookup. exists i. exact Hi.
Qed.

(** X1: [reset] does not touch the history; the call of [update] that
    follows it, with a raw counter that fits 16 bits, only takes the counter
    as baseline and fills the history, and [lastEvent] then reports no
    event. *)
Theorem reset_then_update_is_cold_start (s : nvLightning_t)
    (now count distance : Z) (startup : bool) (refs : lastEvent_refs) :
  wf s -> in_int16 count ->
  (exists s1, reset s = Returns (tt, s1) /\ hist s1 = hist s) /\
  exists s',
    (reset ;;; update now count distance startup) s = Returns (tt, s') /\
    s' = {| lastUpdate := 0; prevCount := count; events := -1; distance := 0;
            timestamp := 0;
            hist := replicate LIGHTNING_HIST_SIZE fill_value |} /\
    lastEvent refs s' = Returns ((false, refs), s').
Proof.
  intros Hwf Hfits.
  split; [eexists; split; reflexivity|].
  unfold bind at 1.
  change (reset s) with
    (Returns (tt, {| lastUpdate := 0; prevCount := -1; events := -1;
                     distance := 0; timestamp := 0; hist := hist s |})).
  cbv iota beta.
  rewrite update_cold_start by (try exact Hwf; reflexivity).
  eexists. split; [reflexivity|]. unfold set_prevCount, set_hist. simpl.
  rewrite to_int16_id by exact Hfits.
  split; reflexivity.
Qed.

(** X2: [hist_init(count)] stores [count mod 65536] in every bucket and
    changes no other field; as that value is never -1, [pastHour] afterwards
    finds every bucket valid and returns [HIST_SIZE * (count mod 65536)]. *)
Theorem hist_init_fills_with_valid_entries (count events0 : Z)
    (s : nvLightning_t) :
  wf s ->
  exists s',
    hist_init count s = Returns (tt, s') /\
    s' = set_hist (replicate LIGHTNING_HIST_SIZE (count mod 65536)) s /\
    pastHour events0 s'
    = Returns ((negb (LIGHTNING_HIST_SIZE =? 0)%nat,
                Z.of_nat LIGHTNING_HIST_SIZE * (count mod 65536)), s').
Proof.
  intros Hwf. rewrite hist_init_returns by exact Hwf.
  eexists. split; [reflexivity|]. split; [reflexivity|].
  pose proof (to_uint16_range count) as Hr. unfold to_uint16 in *.
  rewrite pastHour_returns by (unfold wf; simpl; apply length_replicate).
  simpl hist.
  rewrite any_valid_replicate, sum_valid_replicate by lia. reflexivity.
Qed.

(** X3: when the timestamp lies before [lastUpdate] (no cold start, no
    regression), [update] takes the event snapshot if the counter has grown
    and returns: the history and [lastUpdate] are as before, and without a
    gain the whole record is. *)
Theorem update_backwards_in_time (s : nvLightning_t)
    (now count dist : Z) (startup : bool) :
  prevCount s <> -1 -> prevCount s <= count -> now < lastUpdate s ->
  exists s',
    update now count dist startup s = Returns (tt, s') /\
    hist s' = hist s /\ lastUpdate s' = lastUpdate s /\
    (prevCount s < count ->
     events s' = to_int16 (count - prevCount s) /\
     prevCount s' = to_int16 count /\
     distance s' = dist /\ timestamp s' = now) /\
    (count = prevCount s -> s' = s).
Proof.
  intros Hwarm Hgrow Hback.
  rewrite update_counter_part by assumption. cbv zeta.
  rewrite after_counter_lastUpdate.
  destruct (now - lastUpdate s <? 0) eqn:E; [|lia].
  eexists. split; [reflexivity|].
  split; [apply after_counter_hist|].
  split; [apply after_counter_lastUpdate|].
  unfold after_counter. split.
  - intros Hgain. destruct (count >? prevCount s) eqn:G; [|lia].
    repeat split.
  - intros Hsame. destruct (count >? prevCount s) eqn:G; [lia|reflexivity].
Qed.

(** X4: after a call of [update] that sees the counter grow by [d], with
    [1 <= d <= 32767], [lastEvent] returns the timestamp of the call, [d]
    and the distance of the call, however much time has elapsed and also
    when the timestamp lies before [lastUpdate]. *)
Theorem update_then_lastEvent (s : nvLightning_t)
    (now d dist : Z) (startup : bool) (refs : lastEvent_refs) :
  covers_the_hour -> wf s ->
  prevCount s <> -1 -> 1 <= d <= 32767 ->
  exists s',
    update now (prevCount s + d) dist startup s = Returns (tt, s') /\
    lastEvent refs s'
    = Returns ((true, {| ref_timestamp := now; ref_events := d;
                         ref_distance := dist |}), s').
Proof.
  intros Hplat Hwf Hwarm Hd.
  destruct (covers_in_bounds Hplat) as (Hrate & Hidx).
  assert (Hgrow : prevCount s <= prevCount s + d) by lia.
  assert (Hsnap : forall h,
            lastEvent refs
              (set_hist h (after_counter now (prevCount s + d) dist s))
            = Returns ((true, {| ref_timestamp := now; ref_events := d;
                                 ref_distance := dist |}),
                       set_hist h (after_counter now (prevCount s + d) dist s))).
  { intros h. unfold after_counter.
    destruct (prevCount s + d >? prevCount s) eqn:G; [|lia].
    unfold lastEvent, bind, get, ret. simpl.
    replace (prevCount s + d - prevCount s) with d by lia.
    rewrite to_int16_id by lia.
    destruct (d =? -1) eqn:E; [lia|]. reflexivity. }
  destruct (Z_lt_le_dec (now - lastUpdate s) 0) as [Hneg|Hpos].
  - rewrite update_counter_part by assumption. cbv zeta.
    rewrite after_counter_lastUpdate.
    destruct (now - lastUpdate s <? 0) eqn:E; [|lia].
    eexists. split; [reflexivity|].
    specialize (Hsnap (hist (after_counter now (prevCount s + d) dist s))).
    destruct (after_counter now (prevCount s + d) dist s); exact Hsnap.
  - destruct (update_history now (prevCount s + d) dist startup s
                Hrate Hidx Hwf Hwarm Hgrow Hpos)
      as (h' & Hrun & _).
    rewrite Hrun. eexists. split; [reflexivity | apply Hsnap].
Qed.

(** X5: a call of [update] with the raw counter equal to the baseline (no
    cold start) changes at most the history: the baseline, the event
    snapshot and [lastUpdate] are as before, and [lastEvent] answers as it
    did before the call. *)
Theorem update_without_gain (s : nvLightning_t)
    (now dist : Z) (startup : bool) (refs : lastEvent_refs) :
  covers_the_hour -> wf s -> prevCount s <> -1 ->
  exists s' h' answer,
    update now (prevCount s) dist startup s = Returns (tt, s') /\
    s' = set_hist h' s /\
    lastEvent refs s = Returns (answer, s) /\
    lastEvent refs s' = Returns (answer, s').
Proof.
  intros Hplat Hwf Hwarm.
  destruct (covers_in_bounds Hplat) as (Hrate & Hidx).
  assert (Hsame : after_counter now (prevCount s) dist s = s).
  { unfold after_counter. destruct (prevCount s >? prevCount s) eqn:G; [lia|].
    reflexivity. }
  assert (Hanswer : forall h, exists answer,
            lastEvent refs s = Returns (answer, s) /\
            lastEvent refs (set_hist h s) = Returns (answer, set_hist h s)).
  { intros h. unfold lastEvent, bind, get, ret. simpl.
    destruct (events s =? -1); eexists; split; reflexivity. }
  destruct (Z_lt_le_dec (now - lastUpdate s) 0) as [Hneg|Hpos].
  - exists s, (hist s).
    destruct (Hanswer (hist s)) as (answer & Hbefore & _).
    exists answer.
    rewrite update_counter_part by (try assumption; lia). cbv zeta.
    rewrite Hsame.
    destruct (now - lastUpdate s <? 0) eqn:E; [|lia].
    split; [reflexivity|]. split; [destruct s; reflexivity|].
    split; exact Hbefore.
  - destruct (update_history now (prevCount s) dist startup s
                Hrate Hidx Hwf Hwarm ltac:(lia) Hpos)
      as (h' & Hrun & _).
    rewrite Hsame in Hrun.
    destruct (Hanswer h') as (answer & Hbefore & Hafter).
    exists (set_hist h' s), h', answer.
    split; [exact Hrun|]. split; [reflexivity|].
    split; [exact Hbefore | exact Hafter].
Qed.

(** X6: on a history with no entry below -1 whose entries the code can add
    up in its [int sum] without overflow, [pastHour] returns a sum that is
    not negative. *)
Theorem pastHour_is_not_negative (s : nvLightning_t) (events0 : Z) :
  wf s -> (forall v, v ∈ hist s -> -1 <= v) -> sums_fit_int 0 (hist s) ->
  exists (res : bool) (events' : Z),
    pastHour events0 s = Returns ((res, events'), s) /\
    0 <= events' <= 2147483647.
Proof.
  intros Hwf Hhist Hfit.
  rewrite pastHour_returns by exact Hwf.
  eexists _, _. split; [reflexivity|].
  pose proof (sum_valid_nonneg (hist s) Hhist) as Hlow.
  pose proof (sums_fit_int_total (hist s) 0 ltac:(unfold in_int; lia) Hfit)
    as Hhigh.
  unfold in_int in Hhigh. lia.
Qed.

(** X7: whatever plain reports a caller feeds to [update] (raw counters
    from which a 16-bit baseline can be subtracted within [int], timestamps
    far from the ends of [time_t]), in whatever order, every call returns,
    the record stays consistent (the array at its size, the 16-bit fields in
    range, every bucket -1 or a non-negative [int]) and [lastUpdate] keeps
    the value it had before the first report. *)
Theorem run_reports_keeps_consistent (rs : list report) (s : nvLightning_t) :
  covers_the_hour -> consistent s -> Forall plain_report rs ->
  exists s',
    run_reports rs s = Returns (tt, s') /\
    consistent s' /\ lastUpdate s' = lastUpdate s.
Proof.
  intros Hplat. revert s. induction rs as [|r rs IH]; intros s Hcons Hplain.
  - exists s. split; [reflexivity|]. split; [exact Hcons | reflexivity].
  - apply Forall_cons in Hplain. destruct Hplain as (Hr & Hrs).
    destruct (update_consistent r s Hplat Hcons Hr)
      as (s1 & Hrun1 & Hcons1 & Hlast1).
    destruct (IH s1 Hcons1 Hrs) as (s' & Hrun & Hcons' & Hlast).
    exists s'. split; [|split; [exact Hcons' | congruence]].
    simpl. unfold bind. rewrite Hrun1. exact Hrun.
Qed.

(** X8: an update at most one bucket period after [lastUpdate], and within
    the window (no cold start, no regression), changes the bucket of its
    timestamp and no other bucket. *)
Theorem update_within_one_period (s : nvLightning_t)
    (now count dist : Z) (startup : bool) :
  covers_the_hour -> wf s ->
  prevCount s <> -1 -> prevCount s <= count ->
  0 <= now - lastUpdate s <= period -> now - lastUpdate s < window ->
  exists s',
    update now count dist startup s = Returns (tt, s') /\
    hist s' = <[bucket now := count - prevCount s']> (hist s).
Proof.
  intros Hplat Hwf Hwarm Hgrow Hnear Hin.
  destruct (covers_in_bounds Hplat) as (Hrate & Hidx).
  destruct (update_history now count dist startup s
              Hrate Hidx Hwf Hwarm Hgrow ltac:(lia))
    as (h' & Hrun & _ & _ & Hmiss & _).
  eexists. split; [exact Hrun|]. simpl.
  assert (Hkeep : after_expiry now s = hist s).
  { unfold after_expiry. rewrite Z.geb_leb.
    destruct (window <=? now - lastUpdate s) eqn:E; [lia | reflexivity]. }
  rewrite Hkeep in Hmiss.
  apply list_eq. intros i. apply Hmiss.
  intros k Hk Hlt. exfalso. nia.
Qed.

(** X9: the invalidation walk runs after the entry of the call is written;
    when a period boundary between [lastUpdate] and the timestamp falls into
    the bucket of the timestamp, that bucket reads -1 after the call and the
    entry is lost. *)
Theorem walk_overwrites_current_bucket (s : nvLightning_t)
    (now count dist : Z) (startup : bool) (k : Z) :
  covers_the_hour -> wf s ->
  prevCount s <> -1 -> prevCount s <= count ->
  1 <= k -> lastUpdate s + k * period < now ->
  bucket (lastUpdate s + k * period) = bucket now ->
  exists s',
    update now count dist startup s = Returns (tt, s') /\
    hist s' !! bucket now = Some (-1).
Proof.
  intros Hplat Hwf Hwarm Hgrow Hk Hlt Hsame.
  destruct (covers_in_bounds Hplat) as (Hrate & Hidx).
  assert (Hp : 0 < period) by (unfold period; lia).
  destruct (update_history now count dist startup s
              Hrate Hidx Hwf Hwarm Hgrow ltac:(nia))
    as (h' & Hrun & _ & Hhit & _).
  eexists. split; [exact Hrun|]. simpl.
  rewrite <- Hsame. apply Hhit; assumption.
Qed.

(** X15: a raw counter that narrows to -1 in 16 bits (65535, for one) and
    differs from the baseline leaves the cold-start sentinel as the
    baseline; the call after it is then a cold start: it re-initialises the
    history and records no event, whatever its raw counter is. *)
Theorem sentinel_counter_rearms_cold_start (s : nvLightning_t)
    (now count dist now2 count2 dist2 : Z) (startup startup2 : bool) :
  covers_the_hour -> wf s ->
  prevCount s <> -1 -> count <> prevCount s -> to_int16 count = -1 ->
  exists s1 s2,
    update now count dist startup s = Returns (tt, s1) /\
    prevCount s1 = -1 /\
    update now2 count2 dist2 startup2 s1 = Returns (tt, s2) /\
    hist s2 = replicate LIGHTNING_HIST_SIZE fill_value /\
    events s2 = events s1 /\ timestamp s2 = timestamp s1 /\
    prevCount s2 = to_int16 count2.
Proof.
  intros Hplat Hwf Hwarm Hdiff Hwrap.
  destruct (covers_in_bounds Hplat) as (Hrate & Hidx).
  assert (Hnext : forall s1, wf s1 -> prevCount s1 = -1 ->
            exists s2,
              update now2 count2 dist2 startup2 s1 = Returns (tt, s2) /\
              hist s2 = replicate LIGHTNING_HIST_SIZE fill_value /\
              events s2 = events s1 /\ timestamp s2 = timestamp s1 /\
              prevCount s2 = to_int16 count2).
  { intros s1 Hwf1 Hcold. rewrite update_cold_start by assumption.
    eexists. split; [reflexivity|]. repeat split. }
  assert (Hfirst : exists s1,
            update now count dist startup s = Returns (tt, s1) /\
            wf s1 /\ prevCount s1 = -1).
  { destruct (Z_lt_le_dec count (prevCount s)) as [Hless|Hgrow].
    { rewrite update_regression by assumption.
      eexists. split; [reflexivity|]. split; [exact Hwf | exact Hwrap]. }
    assert (Hmid : prevCount (after_counter now count dist s) = -1).
    { unfold after_counter. destruct (count >? prevCount s) eqn:G; [|lia].
      exact Hwrap. }
    destruct (Z_lt_le_dec (now - lastUpdate s) 0) as [Hneg|Hpos].
    - rewrite update_counter_part by assumption. cbv zeta.
      rewrite after_counter_lastUpdate.
      destruct (now - lastUpdate s <? 0) eqn:E; [|lia].
      eexists. split; [reflexivity|]. split; [|exact Hmid].
      unfold wf. rewrite after_counter_hist. exact Hwf.
    - destruct (update_history now count dist startup s
                  Hrate Hidx Hwf Hwarm Hgrow Hpos)
        as (h' & Hrun & Hlen & _).
      eexists. split; [exact Hrun|]. split; [exact Hlen | exact Hmid]. }
  destruct Hfirst as (s1 & Hrun1 & Hwf1 & Hcold1).
  destruct (Hnext s1 Hwf1 Hcold1) as (s2 & Hrun2 & Hrest).
  exists s1, s2. split; [exact Hrun1|]. split; [exact Hcold1|].
  split; [exact Hrun2 | exact Hrest].
Qed.

End Engine.

(** ** The build with [LIGHTNING_USE_PREFS] *)

Section PrefsBuild.
Context {plat : Platform}.

Lemma prefs_load_run (w : prefs_build) :
  prefs_load w
  = Returns (tt, mk_prefs_build (loaded (preferences w) (ram w)) (preferences w)).
Proof. reflexivity. Qed.

Lemma prefs_save_run (w : prefs_build) :
  prefs_save w
  = Returns (tt, mk_prefs_build (ram w) (saved (ram w) (preferences w))).
Proof. reflexivity. Qed.

Lemma in_ram_run {A : Type} (m : M A) (w : prefs_build) :
  in_ram m w
  = match m (ram w) with
    | Returns (a, s') => Returns (a, mk_prefs_build s' (preferences w))
    | OutOfBounds => OutOfBounds
    | OutOfFuel => OutOfFuel
    end.
Proof. reflexivity. Qed.

(** The loops over the array change no field but [hist]. *)
Lemma hist_store_frame (idx v : Z) (s s1 : nvLightning_t) (u : unit) :
  hist_store idx v s = Returns (u, s1) -> exists h, s1 = set_hist h s.
Proof.
  unfold hist_store. destruct (_ && _); [|discriminate].
  intros [= <- <-]. eexists. reflexivity.
Qed.

Lemma hist_init_frame (c : Z) (s s1 : nvLightning_t) (u : unit) :
  hist_init c s = Returns (u, s1) -> exists h, s1 = set_hist h s.
Proof.
  unfold hist_init. generalize (seq 0 LIGHTNING_HIST_SIZE) as l.
  generalize tt at 1 as a.
  intros a l. revert a s. induction l as [|i l IH]; intros a s; simpl.
  - unfold ret. intros [= <- <-]. exists (hist s). destruct s; reflexivity.
  - unfold bind at 1.
    destruct (hist_store (Z.of_nat i) (to_uint16 c) s) as [[u1 s2]| |] eqn:E;
      try discriminate.
    intros Hrest. apply hist_store_frame in E. destruct E as (h2 & ->).
    apply IH in Hrest. destruct Hrest as (h & ->).
    exists h. reflexivity.
Qed.

(** [update_prefs] is [update] on the loaded record, followed by the save
    when no [return] statement was taken. *)
Lemma update_prefs_run (now count dist : Z) (startup : bool) (w : prefs_build) :
  update_prefs now count dist startup w
  = match update now count dist startup (loaded (preferences w) (ram w)) with
    | Returns (_, s') =>
        Returns (tt, mk_prefs_build s'
                       (if returns_early (loaded (preferences w) (ram w)) now count
                        then preferences w
                        else saved s' (preferences w)))
    | OutOfBounds => OutOfBounds
    | OutOfFuel => OutOfFuel
    end.
Proof.
  unfold update_prefs, returns_early.
  unfold bindP at 1. rewrite prefs_load_run.
  generalize (loaded (preferences w) (ram w)) as s. intros s.
  generalize (preferences w) as p. intros p.
  cbv beta iota delta [update bindP bind in_ram get when ret retP modify ram preferences].
  destruct (prevCount s =? -1) eqn:E1.
  - destruct (hist_init hist_init_default s) as [[[] s1]| |] eqn:Einit;
      try reflexivity.
    apply hist_init_frame in Einit. destruct Einit as (h & ->).
    simpl. rewrite E1. reflexivity.
  - rewrite E1. simpl.
    destruct (count <? prevCount s) eqn:E2; [reflexivity|].
    destruct (count >? prevCount s) eqn:E3; simpl;
      (destruct (now - lastUpdate s <? 0) eqn:E4; [reflexivity|]);
      (destruct (now - lastUpdate s >=? _);
       [ match goal with
         | |- context [hist_init ?c ?x] =>
             destruct (hist_init c x) as [[[] s1]| |]; try reflexivity
         end
       | ]);
      simpl;
      match goal with
      | |- context [hist_store ?i ?v ?x] =>
          destruct (hist_store i v x) as [[[] s2]| |]; try reflexivity
      end;
      simpl;
      match goal with
      | |- context [invalidate_walk ?f ?t ?n ?x] =>
          destruct (invalidate_walk f t n x) as [[[] s3]| |]; try reflexivity
      end.
Qed.

Lemma to_int16_of_uint16 (z : Z) : in_int16 z -> to_int16 (to_uint16 (to_uint16 z)) = z.
Proof.
  intros Hz. unfold in_int16 in Hz. unfold to_uint16.
  rewrite Z.mod_mod by lia. unfold to_int16.
  rewrite Zplus_mod_idemp_l. apply to_int16_id. exact Hz.
Qed.

Lemma to_int64_of_uint64 (z : Z) :
  -9223372036854775808 <= z < 9223372036854775808 ->
  to_int64 (to_uint64 (to_uint64 z)) = z.
Proof.
  intros Hz. unfold to_uint64.
  rewrite Z.mod_mod by lia. unfold to_int64.
  rewrite Zplus_mod_idemp_l. rewrite Z.mod_small by lia. lia.
Qed.

Lemma to_uint8_of_uint8 (z : Z) : 0 <= z < 256 -> to_uint8 (to_uint8 z) = z.
Proof.
  intros Hz. unfold to_uint8.
  rewrite Z.mod_mod by lia. apply Z.mod_small. exact Hz.
Qed.

Lemma to_int64_range (z : Z) :
  -9223372036854775808 <= to_int64 z < 9223372036854775808.
Proof.
  unfold to_int64.
  pose proof (Z.mod_pos_bound (z + 9223372036854775808) 18446744073709551616
                ltac:(lia)). lia.
Qed.

Lemma getBytes_length (key : string) (buf : list Z) (p : gmap string pref_value) :
  length (getBytes key buf p) = length buf.
Proof.
  unfold getBytes. destruct (p !! key) as [[| | |l]|]; try reflexivity.
  destruct (length l <=? length buf)%nat eqn:E; [|reflexivity].
  apply Nat.leb_le in E. rewrite length_app, length_drop. lia.
Qed.

Lemma loaded_wf (p : gmap string pref_value) (s : nvLightning_t) :
  wf s -> wf (loaded p s).
Proof. unfold wf. simpl. rewrite getBytes_length. auto. Qed.

Lemma loaded_in_c_ranges (p : gmap string pref_value) (s : nvLightning_t) :
  in_c_ranges (loaded p s).
Proof.
  unfold in_c_ranges, in_int16. simpl.
  split; [apply to_int64_range|].
  split; [apply to_int16_range|].
  split; [apply to_int16_range|].
  split; [|apply to_int64_range].
  unfold getUChar.
  destruct (p !! "distance") as [[v| | |]|]; apply Z.mod_pos_bound; lia.
Qed.

(** What was saved is what a later load finds. *)
Lemma load_after_save (s s2 : nvLightning_t) (p : gmap string pref_value) :
  in_c_ranges s -> length (hist s2) = length (hist s) ->
  loaded (saved s p) s2 = s.
Proof.
  intros (Hlast & Hprev & Hev & Hdist & Htime) Hlen.
  unfold loaded, saved, putULong64, putUShort, putUChar, putBytes,
    getULong64, getUShort, getUChar, getBytes.
  repeat first [ rewrite lookup_insert_eq
               | rewrite lookup_insert_ne by discriminate ].
  rewrite !to_int64_of_uint64, !to_int16_of_uint16, to_uint8_of_uint8
    by assumption.
  rewrite Hlen, Nat.leb_refl, <- Hlen, drop_all, app_nil_r.
  destruct s; reflexivity.
Qed.

(** X10: from a namespace that holds none of the six keys, [prefs_load]
    leaves the defaults in memory, among them the sentinels
    [prevCount = -1] and [events = -1] (the [uint16_t] default 65535 narrowed
    to [int16_t]), and does not touch the history in memory. *)
Theorem prefs_load_missing_keys (w : prefs_build) :
  preferences w !! "lastUpdate" = None ->
  preferences w !! "prevCount" = None ->
  preferences w !! "events" = None ->
  preferences w !! "distance" = None ->
  preferences w !! "timestamp" = None ->
  preferences w !! "hist" = None ->
  prefs_load w
  = Returns (tt, {| ram := {| lastUpdate := 0; prevCount := -1; events := -1;
                              distance := 0; timestamp := 0;
                              hist := hist (ram w) |};
                    preferences := preferences w |}).
Proof.
  intros H1 H2 H3 H4 H5 H6. rewrite prefs_load_run.
  unfold loaded, getULong64, getUShort, getUChar, getBytes.
  rewrite H1, H2, H3, H4, H5, H6. reflexivity.
Qed.

(** X11: [prefs_save] followed by [prefs_load] restores the record, whatever
    is in memory at the time of the load, provided the fields hold values of
    their C types and the array in memory has the size of the saved one. *)
Theorem prefs_save_then_load (s s2 : nvLightning_t)
    (p : gmap string pref_value) :
  in_c_ranges s -> length (hist s2) = length (hist s) ->
  exists p',
    prefs_save {| ram := s; preferences := p |}
    = Returns (tt, {| ram := s; preferences := p' |}) /\
    prefs_load {| ram := s2; preferences := p' |}
    = Returns (tt, {| ram := s; preferences := p' |}).
Proof.
  intros Hranges Hlen. exists (saved s p).
  split; [apply prefs_save_run|].
  rewrite prefs_load_run. simpl.
  rewrite load_after_save by assumption. reflexivity.
Qed.

(** X12: in the build with [LIGHTNING_USE_PREFS] a call of [update] that
    takes one of the three [return] statements (cold start, counter
    regression, timestamp before [lastUpdate]) writes nothing to the
    namespace: the new baseline and the event snapshot stay in memory
    only. *)
Theorem update_prefs_early_return_saves_nothing (w : prefs_build)
    (now count dist : Z) (startup : bool) :
  wf (ram w) ->
  prevCount (loaded (preferences w) (ram w)) = -1 \/
  count < prevCount (loaded (preferences w) (ram w)) \/
  now < lastUpdate (loaded (preferences w) (ram w)) ->
  exists w',
    update_prefs now count dist startup w = Returns (tt, w') /\
    preferences w' = preferences w.
Proof.
  intros Hwf Hearly. rewrite update_prefs_run.
  pose proof (loaded_wf (preferences w) (ram w) Hwf) as Hwfl.
  set (s := loaded (preferences w) (ram w)) in *.
  assert (Hflag : returns_early s now count = true).
  { unfold returns_early.
    destruct Hearly as [Hcold|[Hless|Hback]].
    - rewrite Hcold. reflexivity.
    - apply Z.ltb_lt in Hless. rewrite Hless. apply orb_true_iff. left.
      apply orb_true_r.
    - assert (Hneg : (now - lastUpdate s <? 0) = true) by (apply Z.ltb_lt; lia).
      rewrite Hneg. apply orb_true_r. }
  rewrite Hflag.
  destruct (Z.eq_dec (prevCount s) (-1)) as [Hcold|Hwarm].
  { rewrite update_cold_start by assumption. eexists. split; reflexivity. }
  destruct (Z_lt_le_dec count (prevCount s)) as [Hless|Hgrow].
  { rewrite update_regression by assumption. eexists. split; reflexivity. }
  destruct Hearly as [Hcold|[Hless|Hback]]; [contradiction | lia |].
  rewrite update_counter_part by assumption. cbv zeta.
  rewrite after_counter_lastUpdate.
  destruct (now - lastUpdate s <? 0) eqn:E; [|lia].
  eexists. split; reflexivity.
Qed.

(** Without the key "prevCount" every call is a cold start that saves
    nothing. *)
Lemma update_prefs_without_baseline (w : prefs_build)
    (now count dist : Z) (startup : bool) :
  wf (ram w) -> preferences w !! "prevCount" = None ->
  exists w',
    update_prefs now count dist startup w = Returns (tt, w') /\
    preferences w' = preferences w /\ wf (ram w') /\
    hist (ram w') = replicate LIGHTNING_HIST_SIZE fill_value.
Proof.
  intros Hwf Hkey. rewrite update_prefs_run.
  pose proof (loaded_wf (preferences w) (ram w) Hwf) as Hwfl.
  assert (Hcold : prevCount (loaded (preferences w) (ram w)) = -1).
  { unfold loaded, getUShort. simpl. rewrite Hkey. reflexivity. }
  unfold returns_early. rewrite Hcold.
  rewrite update_cold_start by assumption.
  eexists. split; [reflexivity|]. simpl.
  split; [reflexivity|]. split; [|reflexivity].
  unfold wf. simpl. apply length_replicate.
Qed.

(** X13: in the build with [LIGHTNING_USE_PREFS], when the namespace has no
    key "prevCount" (as on a device that has never saved), no sequence of
    reports ever changes the namespace: each call loads the baseline -1,
    re-initialises the history and returns before [prefs_save]. *)
Theorem prefs_build_never_leaves_cold_start (rs : list report)
    (w : prefs_build) :
  wf (ram w) -> preferences w !! "prevCount" = None ->
  exists w',
    run_reports_prefs rs w = Returns (tt, w') /\
    preferences w' = preferences w /\
    (rs <> [] -> hist (ram w') = replicate LIGHTNING_HIST_SIZE fill_value).
Proof.
  revert w. induction rs as [|r rs IH]; intros w Hwf Hkey.
  - exists w. split; [reflexivity|]. split; [reflexivity|]. congruence.
  - destruct (update_prefs_without_baseline w (r_timestamp r) (r_count r)
                (r_distance r) (r_startup r) Hwf Hkey)
      as (w1 & Hrun1 & Hp1 & Hwf1 & Hhist1).
    destruct (IH w1 Hwf1 ltac:(rewrite Hp1; exact Hkey))
      as (w' & Hrun & Hp & Hhist).
    exists w'. split; [|split].
    + simpl. unfold bindP. rewrite Hrun1. exact Hrun.
    + congruence.
    + intros _. destruct rs as [|r2 rs]; [|apply Hhist; discriminate].
      simpl in Hrun. unfold retP in Hrun. injection Hrun as <-. exact Hhist1.
Qed.

(** X14: in the build with [LIGHTNING_USE_PREFS] a call of [update] that
    takes none of the [return] statements saves the record it leaves in
    memory: a later [prefs_load] restores exactly that record. *)
Theorem update_prefs_persists (w : prefs_build)
    (now count dist : Z) (startup : bool) :
  covers_the_hour -> wf (ram w) ->
  prevCount (loaded (preferences w) (ram w)) <> -1 ->
  prevCount (loaded (preferences w) (ram w)) <= count ->
  lastUpdate (loaded (preferences w) (ram w)) <= now ->
  0 <= dist < 256 ->
  -9223372036854775808 <= now < 9223372036854775808 ->
  exists w',
    update_prefs now count dist startup w = Returns (tt, w') /\
    forall s2, wf s2 ->
      prefs_load {| ram := s2; preferences := preferences w' |}
      = Returns (tt, w').
Proof.
  intros Hplat Hwf Hwarm Hgrow Hpos Hdist Hnow.
  destruct (covers_in_bounds Hplat) as (Hrate & Hidx).
  rewrite update_prefs_run.
  pose proof (loaded_wf (preferences w) (ram w) Hwf) as Hwfl.
  pose proof (loaded_in_c_ranges (preferences w) (ram w)) as Hranges.
  set (s := loaded (preferences w) (ram w)) in *.
  assert (Hflag : returns_early s now count = false).
  { unfold returns_early.
    apply Z.eqb_neq in Hwarm. rewrite Hwarm.
    assert (H2 : (count <? prevCount s) = false) by (apply Z.ltb_ge; lia).
    assert (H3 : (now - lastUpdate s <? 0) = false) by (apply Z.ltb_ge; lia).
    rewrite H2, H3. reflexivity. }
  rewrite Hflag.
  destruct (update_history now count dist startup s
              Hrate Hidx Hwfl Hwarm Hgrow ltac:(lia))
    as (h' & Hrun & Hlen & _).
  rewrite Hrun. eexists. split; [reflexivity|].
  intros s2 Hwf2. rewrite prefs_load_run. simpl.
  rewrite load_after_save; [reflexivity| |].
  - destruct Hranges as (Hlast & Hprev & Hev & Hd & Htime).
    unfold after_counter. destruct (count >? prevCount s).
    + unfold in_c_ranges, in_int16. simpl.
      split; [exact Hlast|]. split; [apply to_int16_range|].
      split; [apply to_int16_range|]. split; [exact Hdist | exact Hnow].
    + exact (conj Hlast (conj Hprev (conj Hev (conj Hd Htime)))).
  - simpl. rewrite Hlen. exact Hwf2.
Qed.

End PrefsBuild.

(** ** The further properties at work *)

Lemma six_by_ten_covers : covers_the_hour (plat:=six_by_ten).
Proof.
  split; [simpl; lia|]. split; [exact utc_min_in_range | simpl; lia].
Qed.

Lemma baseline_5_consistent : consistent (plat:=six_by_ten) baseline_5.
Proof.
  split; [reflexivity|]. split; [unfold in_int16; simpl; lia|].
  split; [unfold in_int16; simpl; lia|]. split; [simpl; lia|].
  apply Forall_forall. simpl. repeat (constructor; [lia|]). constructor.
Qed.

Lemma baseline_5_entries : forall v, v ∈ hist baseline_5 -> -1 <= v.
Proof.
  apply Forall_forall. simpl. repeat (constructor; [lia|]). constructor.
Qed.

Lemma three_reports_plain : Forall plain_report three_reports.
Proof.
  unfold three_reports, plain_report.
  repeat (constructor; [simpl; lia|]). constructor.
Qed.

Ltac concrete_more :=
  first [ exact six_by_ten_covers | exact baseline_5_consistent
        | concrete | unfold in_int16; simpl; lia
        | unfold in_c_ranges, in_int16; simpl; lia
        | vm_compute; reflexivity ].

Lemma reset_then_update_is_cold_start_witness :
  (wf (plat:=six_by_ten) with_event /\ in_int16 7) /\
  (exists s1, reset with_event = Returns (tt, s1) /\ hist s1 = hist with_event) /\
  exists s',
    (reset ;;; update (plat:=six_by_ten) 600 7 2 false) with_event
    = Returns (tt, s') /\
    s' = {| lastUpdate := 0; prevCount := 7; events := -1; distance := 0;
            timestamp := 0;
            hist := replicate 6 (fill_value (plat:=six_by_ten)) |} /\
    lastEvent (mk_refs 1 2 3) s' = Returns ((false, mk_refs 1 2 3), s').
Proof.
  split; [split; concrete_more|].
  apply (reset_then_update_is_cold_start (plat:=six_by_ten)
           with_event 600 7 2 false (mk_refs 1 2 3)); concrete_more.
Defined.

Lemma hist_init_fills_with_valid_entries_witness :
  wf (plat:=six_by_ten) with_event /\
  exists s',
    hist_init (plat:=six_by_ten) (-1) with_event = Returns (tt, s') /\
    s' = set_hist (replicate 6 ((-1) mod 65536)) with_event /\
    pastHour (plat:=six_by_ten) 0 s'
    = Returns ((negb (6 =? 0)%nat, Z.of_nat 6 * ((-1) mod 65536)), s').
Proof.
  split; [concrete_more|].
  apply (hist_init_fills_with_valid_entries (plat:=six_by_ten) (-1) 0 with_event);
    concrete_more.
Defined.

Lemma update_backwards_in_time_witness :
  (prevCount with_event <> -1 /\ prevCount with_event <= 10 /\
   600 < lastUpdate with_event) /\
  exists s',
    update (plat:=six_by_ten) 600 10 4 false with_event = Returns (tt, s') /\
    hist s' = hist with_event /\ lastUpdate s' = lastUpdate with_event /\
    (prevCount with_event < 10 ->
     events s' = to_int16 (10 - prevCount with_event) /\
     prevCount s' = to_int16 10 /\
     distance s' = 4 /\ timestamp s' = 600) /\
    (10 = prevCount with_event -> s' = with_event).
Proof.
  split; [concrete_all|].
  apply (update_backwards_in_time (plat:=six_by_ten) with_event 600 10 4 false);
    concrete_more.
Defined.

Lemma update_then_lastEvent_witness :
  (covers_the_hour (plat:=six_by_ten) /\ wf (plat:=six_by_ten) baseline_5 /\
   prevCount baseline_5 <> -1 /\ 1 <= 3 <= 32767) /\
  exists s',
    update (plat:=six_by_ten) 600 (prevCount baseline_5 + 3) 2 false baseline_5
    = Returns (tt, s') /\
    lastEvent (mk_refs 0 0 0) s'
    = Returns ((true, {| ref_timestamp := 600; ref_events := 3;
                         ref_distance := 2 |}), s').
Proof.
  split; [repeat match goal with |- _ /\ _ => split end; concrete_more|].
  apply (update_then_lastEvent (plat:=six_by_ten) baseline_5 600 3 2 false
           (mk_refs 0 0 0)); concrete_more.
Defined.

Lemma update_without_gain_witness :
  (covers_the_hour (plat:=six_by_ten) /\ wf (plat:=six_by_ten) baseline_5 /\
   prevCount baseline_5 <> -1) /\
  exists s' h' answer,
    update (plat:=six_by_ten) 600 (prevCount baseline_5) 2 false baseline_5
    = Returns (tt, s') /\
    s' = set_hist h' baseline_5 /\
    lastEvent (mk_refs 0 0 0) baseline_5 = Returns (answer, baseline_5) /\
    lastEvent (mk_refs 0 0 0) s' = Returns (answer, s').
Proof.
  split; [repeat match goal with |- _ /\ _ => split end; concrete_more|].
  apply (update_without_gain (plat:=six_by_ten) baseline_5 600 2 false
           (mk_refs 0 0 0)); concrete_more.
Defined.

Lemma pastHour_is_not_negative_witness :
  (wf (plat:=six_by_ten) baseline_5 /\
   (forall v, v ∈ hist baseline_5 -> -1 <= v) /\
   sums_fit_int 0 (hist baseline_5)) /\
  exists (res : bool) (events' : Z),
    pastHour (plat:=six_by_ten) 0 baseline_5
    = Returns ((res, events'), baseline_5) /\
    0 <= events' <= 2147483647.
Proof.
  split;
    [split; [reflexivity|];
     split; [exact baseline_5_entries | simpl; unfold in_int; lia]|].
  apply (pastHour_is_not_negative (plat:=six_by_ten) baseline_5 0);
    [reflexivity | exact baseline_5_entries | simpl; unfold in_int; lia].
Defined.

Lemma run_reports_keeps_consistent_witness :
  (covers_the_hour (plat:=six_by_ten) /\
   consistent (plat:=six_by_ten) baseline_5 /\
   Forall plain_report three_reports) /\
  exists s',
    run_reports (plat:=six_by_ten) three_reports baseline_5
    = Returns (tt, s') /\
    consistent (plat:=six_by_ten) s' /\
    lastUpdate s' = lastUpdate baseline_5.
Proof.
  split;
    [split; [exact six_by_ten_covers|];
     split; [exact baseline_5_consistent | exact three_reports_plain]|].
  apply (run_reports_keeps_consistent (plat:=six_by_ten) three_reports
           baseline_5);
    [exact six_by_ten_covers | exact baseline_5_consistent
    | exact three_reports_plain].
Defined.

Lemma update_within_one_period_witness :
  (covers_the_hour (plat:=six_by_ten) /\ wf (plat:=six_by_ten) baseline_5 /\
   prevCount baseline_5 <> -1 /\ prevCount baseline_5 <= 5 /\
   0 <= 300 - lastUpdate baseline_5 <= period (plat:=six_by_ten) /\
   300 - lastUpdate baseline_5 < window (plat:=six_by_ten)) /\
  exists s',
    update (plat:=six_by_ten) 300 5 0 false baseline_5 = Returns (tt, s') /\
    hist s'
    = <[bucket (plat:=six_by_ten) 300 := 5 - prevCount s']> (hist baseline_5).
Proof.
  split; [repeat match goal with |- _ /\ _ => split end; concrete_more|].
  apply (update_within_one_period (plat:=six_by_ten) baseline_5 300 5 0 false);
    repeat match goal with |- _ /\ _ => split end; concrete_more.
Defined.

Lemma walk_overwrites_current_bucket_witness :
  (covers_the_hour (plat:=six_by_ten) /\ wf (plat:=six_by_ten) baseline_5 /\
   prevCount baseline_5 <> -1 /\ prevCount baseline_5 <= 8 /\
   1 <= 1 /\ lastUpdate baseline_5 + 1 * period (plat:=six_by_ten) < 900 /\
   bucket (plat:=six_by_ten) (lastUpdate baseline_5 + 1 * period (plat:=six_by_ten))
   = bucket (plat:=six_by_ten) 900) /\
  exists s',
    update (plat:=six_by_ten) 900 8 3 false baseline_5 = Returns (tt, s') /\
    hist s' !! bucket (plat:=six_by_ten) 900 = Some (-1).
Proof.
  split; [repeat match goal with |- _ /\ _ => split end; concrete_more|].
  apply (walk_overwrites_current_bucket (plat:=six_by_ten) baseline_5
           900 8 3 false 1); concrete_more.
Defined.

Lemma prefs_load_missing_keys_witness :
  (preferences fresh_device !! "lastUpdate" = None /\
   preferences fresh_device !! "prevCount" = None /\
   preferences fresh_device !! "events" = None /\
   preferences fresh_device !! "distance" = None /\
   preferences fresh_device !! "timestamp" = None /\
   preferences fresh_device !! "hist" = None) /\
  prefs_load fresh_device
  = Returns (tt, {| ram := {| lastUpdate := 0; prevCount := -1; events := -1;
                              distance := 0; timestamp := 0;
                              hist := hist (ram fresh_device) |};
                    preferences := preferences fresh_device |}).
Proof.
  split; [repeat match goal with |- _ /\ _ => split end; reflexivity|].
  apply (prefs_load_missing_keys fresh_device); reflexivity.
Defined.

Lemma prefs_save_then_load_witness :
  (in_c_ranges with_event /\
   length (hist all_sentinel) = length (hist with_event)) /\
  exists p',
    prefs_save {| ram := with_event; preferences := ∅ |}
    = Returns (tt, {| ram := with_event; preferences := p' |}) /\
    prefs_load {| ram := all_sentinel; preferences := p' |}
    = Returns (tt, {| ram := with_event; preferences := p' |}).
Proof.
  split; [split; concrete_more|].
  apply (prefs_save_then_load with_event all_sentinel ∅); concrete_more.
Defined.

Lemma update_prefs_early_return_saves_nothing_witness :
  (wf (plat:=six_by_ten) (ram fresh_device) /\
   (prevCount (loaded (preferences fresh_device) (ram fresh_device)) = -1 \/
    5 < prevCount (loaded (preferences fresh_device) (ram fresh_device)) \/
    600 < lastUpdate (loaded (preferences fresh_device) (ram fresh_device)))) /\
  exists w',
    update_prefs (plat:=six_by_ten) 600 5 2 false fresh_device
    = Returns (tt, w') /\
    preferences w' = preferences fresh_device.
Proof.
  split; [split; [reflexivity | left; reflexivity]|].
  apply (update_prefs_early_return_saves_nothing (plat:=six_by_ten)
           fresh_device 600 5 2 false); [reflexivity | left; reflexivity].
Defined.

Lemma prefs_build_never_leaves_cold_start_witness :
  (wf (plat:=six_by_ten) (ram fresh_device) /\
   preferences fresh_device !! "prevCount" = None) /\
  exists w',
    run_reports_prefs (plat:=six_by_ten) three_reports fresh_device
    = Returns (tt, w') /\
    preferences w' = preferences fresh_device /\
    (three_reports <> [] ->
     hist (ram w') = replicate 6 (fill_value (plat:=six_by_ten))).
Proof.
  split; [split; reflexivity|].
  apply (prefs_build_never_leaves_cold_start (plat:=six_by_ten)
           three_reports fresh_device); reflexivity.
Defined.

Lemma update_prefs_persists_witness :
  (covers_the_hour (plat:=six_by_ten) /\
   wf (plat:=six_by_ten) (ram saved_device) /\
   prevCount (loaded (preferences saved_device) (ram saved_device)) <> -1 /\
   prevCount (loaded (preferences saved_device) (ram saved_device)) <= 8 /\
   lastUpdate (loaded (preferences saved_device) (ram saved_device)) <= 600 /\
   0 <= 3 < 256 /\
   -9223372036854775808 <= 600 < 9223372036854775808) /\
  exists w',
    update_prefs (plat:=six_by_ten) 600 8 3 false saved_device
    = Returns (tt, w') /\
    forall s2, wf (plat:=six_by_ten) s2 ->
      prefs_load {| ram := s2; preferences := preferences w' |}
      = Returns (tt, w').
Proof.
  split; [repeat match goal with |- _ /\ _ => split end;
          first [concrete_more | vm_compute; discriminate]|].
  apply (update_prefs_persists (plat:=six_by_ten) saved_device 600 8 3 false);
    repeat match goal with |- _ /\ _ => split end;
    first [concrete_more | vm_compute; discriminate].
Defined.

Lemma sentinel_counter_rearms_cold_start_witness :
  (covers_the_hour (plat:=six_by_ten) /\ wf (plat:=six_by_ten) baseline_5 /\
   prevCount baseline_5 <> -1 /\ 65535 <> prevCount baseline_5 /\
   to_int16 65535 = -1) /\
  exists s1 s2,
    update (plat:=six_by_ten) 600 65535 3 false baseline_5 = Returns (tt, s1) /\
    prevCount s1 = -1 /\
    update (plat:=six_by_ten) 1200 65540 2 false s1 = Returns (tt, s2) /\
    hist s2 = replicate 6 (fill_value (plat:=six_by_ten)) /\
    events s2 = events s1 /\ timestamp s2 = timestamp s1 /\
    prevCount s2 = to_int16 65540.
Proof.
  split; [repeat match goal with |- _ /\ _ => split end; concrete_more|].
  apply (sentinel_counter_rearms_cold_start (plat:=six_by_ten) baseline_5
           600 65535 3 1200 65540 2 false false); concrete_more.
Defined.
